(** * The documentation generator of [codegen/generate-docs.ts]

    A shallow embedding of the generator: the JavaScript string primitives it
    calls, the slice of the TypeScript syntax tree it reads, the extraction of
    declaration records from JSDoc tags, the markdown renderer, and the pass
    over the output tree.

    Conventions of the model.
    - A JavaScript string is a [string]; one character stands for one UTF-16
      code unit, so the strings of the model are those whose code units are
      below 256 (Latin-1).  On these, [trim], the [\s] class, [toLowerCase]
      and the character class of [renderType] are exactly the ones defined
      below; what the code does with code units from U+0100 on (the final
      sigma of [toLowerCase], the code units above U+9999 that [renderType]
      leaves as they are) is outside the model, and every statement about
      texts is one about Latin-1 texts.
    - A JavaScript number that the generator handles is NaN, an integer that
      is a double, or an infinity ([number]); [parseInt] rounds to the
      nearest double and [toString] prints as Number::toString does.
    - The syntax tree is what the TypeScript compiler API hands out: node
      texts, JSDoc tags with an optional comment, members, parameters.
    - The generator comes twice.  First come its functions as their calls
      return: there [parseTags] looks at the handlers of the tag matcher
      only, and a file-system call has its effect.  Module [Exn] then has
      the same functions with the calls that throw, and the world in which
      the script ends then; a run that is done there is a run of the first
      functions (lemmas [Exn_generateDocs_Done], [Exn_parseDeclaration_Some],
      theorem [completed_script_is_modelled]).  The source files are given
      parsed (reading them does not throw), and [console.log] is not
      modelled. *)

From Stdlib Require Import Ascii ZArith.
From stdpp Require Import base option list strings pretty gmap.

Local Open Scope Z_scope.
Local Open Scope stdpp_scope.

(** ** JavaScript strings *)

Module JS.

Definition code (c : ascii) : N := N_of_ascii c.

(** [[A-Z]] *)
Definition is_upper (c : ascii) : bool :=
  ((65 <=? code c) && (code c <=? 90))%N.

(** [[0-9]], with the digit's value *)
Definition digit (c : ascii) : option Z :=
  if ((48 <=? code c) && (code c <=? 57))%N then Some (Z.of_N (code c) - 48)
  else None.

(** WhiteSpace and LineTerminator code units below 256: TAB, LF, VT, FF, CR,
    SP and NBSP.  This is the class [\s] and what [trim] strips. *)
Definition is_space (c : ascii) : bool :=
  let n := code c in
  ((9 <=? n) && (n <=? 13) || (n =? 32) || (n =? 160))%N.

(** [String.prototype.toLowerCase] on a Latin-1 text, where it goes one code
    unit at a time (its one rule that looks at the context, the final sigma,
    is about U+03A3): the letters A-Z, and in the Latin-1 supplement
    U+00C0-U+00DE without U+00D7. *)
Definition lower (c : ascii) : ascii :=
  let n := code c in
  if is_upper c then ascii_of_N (n + 32)
  else if ((192 <=? n) && (n <=? 222) && negb (n =? 215))%N
       then ascii_of_N (n + 32)
       else c.

Fixpoint toLowerCase (s : string) : string :=
  match s with
  | "" => ""
  | String c r => String (lower c) (toLowerCase r)
  end.

(** [Array.prototype.join] on strings *)
Fixpoint join (sep : string) (l : list string) : string :=
  match l with
  | [] => ""
  | [x] => x
  | x :: r => x +:+ sep +:+ join sep r
  end.

(** [s.split(/(?=[A-Z])/)].  The loop of [RegExp.prototype[@@split]]: [cur]
    is the text between the last split point [p] and the scan position [q].
    The lookahead matches the empty string at [q] when the next code unit is
    in [A-Z]; an empty match at [q = p] is skipped, any other one closes the
    current piece. The last piece is always pushed. *)
Fixpoint split_go (cur s : string) : list string :=
  match s with
  | "" => [cur]
  | String c r =>
      if is_upper c && negb (bool_decide (cur = ""))
      then cur :: split_go (String c "") r
      else split_go (cur +:+ String c "") r
  end.

Definition split_upper (s : string) : list string := split_go "" s.

(** [String.prototype.trim] *)
Fixpoint trimStart (s : string) : string :=
  match s with
  | "" => ""
  | String c r => if is_space c then trimStart r else s
  end.

Fixpoint trimEnd (s : string) : string :=
  match s with
  | "" => ""
  | String c r =>
      let r' := trimEnd r in
      if is_space c && bool_decide (r' = "") then "" else String c r'
  end.

Definition trim (s : string) : string := trimEnd (trimStart s).

(** [s] without its prefix [pat], when it starts with [pat] *)
Fixpoint strip_prefix (pat s : string) : option string :=
  match pat with
  | "" => Some s
  | String a pat' =>
      match s with
      | String b s' => if bool_decide (a = b) then strip_prefix pat' s' else None
      | "" => None
      end
  end.

(** The first occurrence of [pat] in [s], as the text before it and the
    text after it. *)
Fixpoint cut (pat s : string) : option (string * string) :=
  match strip_prefix pat s with
  | Some post => Some ("", post)
  | None =>
      match s with
      | "" => None
      | String c r =>
          match cut pat r with
          | Some (pre, post) => Some (String c pre, post)
          | None => None
          end
      end
  end.

(** [s.substring(i)] *)
Fixpoint substring_from (i : nat) (s : string) : string :=
  match i, s with
  | S k, String _ r => substring_from k r
  | _, _ => s
  end.

(** [s.includes(pat)]; also [/pat/.test(s)] for a pattern without
    metacharacters. *)
Definition includes (pat s : string) : bool := bool_decide (is_Some (cut pat s)).

(** [s.indexOf(pat)], [None] standing for -1 *)
Definition indexOf (pat s : string) : option nat :=
  (λ x, String.length x.1) <$> cut pat s.

(** GetSubstitution for a string pattern: there are no captures, so of the
    [$] forms only [$$], [$&], [$`] and [$'] are replaced. *)
Fixpoint getSubstitution (matched before after template : string) : string :=
  match template with
  | "" => ""
  | String c r =>
      if bool_decide (c = "$"%char) then
        match r with
        | String d r' =>
            if bool_decide (d = "$"%char)
            then String "$" (getSubstitution matched before after r')
            else if bool_decide (d = "&"%char)
            then matched +:+ getSubstitution matched before after r'
            else if bool_decide (d = "`"%char)
            then before +:+ getSubstitution matched before after r'
            else if bool_decide (d = "'"%char)
            then after +:+ getSubstitution matched before after r'
            else String c (getSubstitution matched before after r)
        | "" => String c ""
        end
      else String c (getSubstitution matched before after r)
  end.

(** [s.replace(pat, template)] with a string pattern: the first occurrence
    only. *)
Definition replace (pat template s : string) : string :=
  match cut pat s with
  | None => s
  | Some (pre, post) => pre +:+ getSubstitution pat pre post template +:+ post
  end.

(** [s.replace(/\n/g, ' ')] *)
Fixpoint replace_newlines (s : string) : string :=
  match s with
  | "" => ""
  | String c r =>
      String (if bool_decide (c = "010"%char) then " "%char else c)
             (replace_newlines r)
  end.

(** [s.replace(/[\u00A0-\u9999<>\&]/gim, i => '&#' + i.charCodeAt(0) + ';')].
    On code units below 256 the [i] flag adds no character to the class, and
    the upper end of the class, U+9999, is not reached: a code unit above it
    is left as it is by the code, and is no code unit of the model. *)
Definition is_entity (c : ascii) : bool :=
  let n := code c in
  ((160 <=? n) && (n <=? 39321) || (n =? 60) || (n =? 62) || (n =? 38))%N.

Fixpoint encode_entities (s : string) : string :=
  match s with
  | "" => ""
  | String c r =>
      if is_entity c
      then "&#" +:+ pretty (code c) +:+ ";" +:+ encode_entities r
      else String c (encode_entities r)
  end.

(** A match of [/\n\s+\*\s/] at the head of [s], as its length.  The greedy
    [\s+] takes the whole run of white space after the line feed, since the
    asterisk that must follow is not white space. *)
Definition example_prefix (s : string) : option nat :=
  match s with
  | String "010" r =>
      match trimStart r with
      | String "*" (String d rest) =>
          if is_space d && negb (bool_decide (trimStart r = r))
          then Some (String.length s - String.length rest)%nat
          else None
      | _ => None
      end
  | _ => None
  end.

(** [s.replace(/\n\s+\*\s/g, '')]: [skip] counts the code units of the
    current match that are still to be dropped. *)
Fixpoint strip_go (skip : nat) (s : string) : string :=
  match s with
  | "" => ""
  | String c r =>
      match skip with
      | S k => strip_go k r
      | O =>
          match example_prefix s with
          | Some n => strip_go (pred n) r
          | None => String c (strip_go O r)
          end
      end
  end.

Definition strip_comment_stars (s : string) : string := strip_go O s.

(** Numbers: the results of [Number.parseInt] and the literals of the
    generator, which are NaN, the integers that are doubles, and the two
    infinities.  [Num 0] stands for both zeros, which are printed alike. *)
Inductive number := NaN | Num (z : Z) | Infinity (negative : bool).

Global Instance number_eq_dec : EqDecision number.
Proof. solve_decision. Defined.

(** The Number value for an integer: the integer itself below 2^53 in
    magnitude; beyond, the nearest double, which keeps 53 significant bits
    (a tie goes to the even significand), and an infinity when that reaches
    2^1024. *)
Definition toDouble (z : Z) : number :=
  let n := Z.abs z in
  if n <? 2 ^ 53 then Num z
  else
    let sh := Z.log2 n - 52 in
    let q := Z.shiftr n sh in
    let r := n - Z.shiftl q sh in
    let half := 2 ^ (sh - 1) in
    let q' := if (half <? r) || ((r =? half) && Z.odd q) then q + 1 else q in
    let v := Z.shiftl q' sh in
    if 2 ^ 1024 <=? v then Infinity (z <? 0) else Num (Z.sgn z * v).

(** The digits of the longest prefix of [s] in [[0-9]]*, read in base 10;
    [None] when [s] does not start with a digit. *)
Fixpoint digits_go (acc : option Z) (s : string) : option Z :=
  match s with
  | "" => acc
  | String c r =>
      match digit c with
      | Some d => digits_go (Some (10 * default 0 acc + d)) r
      | None => acc
      end
  end.

(** [Number.parseInt(s, 10)]: the white space in front is skipped, a sign is
    read, and the digits that follow give a mathematical integer, of which
    the Number value is returned; with the radix 10 given, a prefix [0x] is
    the digit 0 followed by other text. *)
Definition parseInt (s : string) : number :=
  let s1 := trimStart s in
  let '(sign, s2) :=
    match s1 with
    | String "-" r => (-1, r)
    | String "+" r => (1, r)
    | _ => (1, s1)
    end in
  match digits_go None s2 with
  | None => NaN
  | Some n => toDouble (sign * n)
  end.

(** Number::toString for a double [m] that is an integer of magnitude 2^53
    or more.  The digits are those of the multiple [s * 10^p] with the fewest
    significant digits that is read back as [m]: [shortestAt m p] is the
    multiple of [10^p] that is read back as [m], the nearer one to [m] if
    there are two (the one with [s] even if they are as near), and [shortest]
    tries the exponents from [p] down. *)
Definition shortestAt (m : Z) (p : nat) : option Z :=
  let u := 10 ^ Z.of_nat p in
  let lo := m / u * u in
  let hi := lo + u in
  let okLo := bool_decide (toDouble lo = Num m) in
  let okHi := bool_decide (toDouble hi = Num m) in
  if okLo && okHi
  then Some (if m - lo <? hi - m then lo
             else if hi - m <? m - lo then hi
             else if Z.even (lo / u) then lo else hi)
  else if okLo then Some lo
  else if okHi then Some hi
  else None.

Fixpoint shortest (m : Z) (p : nat) : Z :=
  match shortestAt m p with
  | Some v => v
  | None => match p with O => m | S p' => shortest m p' end
  end.

(** A text of digits without the zeros at its end *)
Fixpoint dropZeros (s : string) : string :=
  match s with
  | "" => ""
  | String c r =>
      let r' := dropZeros r in
      if bool_decide (c = "0"%char) && bool_decide (r' = "") then ""
      else String c r'
  end.

(** The text of the integer [v] of [n] digits: its digits up to [n = 21],
    and from there on the exponent form [d.ddde+x] with [x = n - 1]. *)
Definition digitsToString (v : Z) : string :=
  let t := pretty v in
  let n := String.length t in
  if (n <=? 21)%nat then t
  else
    match dropZeros t with
    | String d rest =>
        String d (if bool_decide (rest = "") then "" else "." +:+ rest)
          +:+ "e+" +:+ pretty (n - 1)%nat
    | "" => t
    end.

Definition integerToString (m : Z) : string :=
  if Z.abs m <? 2 ^ 53 then pretty m
  else (if m <? 0 then "-" else "")
         +:+ digitsToString
               (shortest (Z.abs m) (String.length (pretty (Z.abs m)) - 1)).

(** Number to string, as a template literal does it.  [Num z] is printed as
    the Number value for [z]. *)
Definition toString (n : number) : string :=
  match n with
  | NaN => "NaN"
  | Infinity negative => if negative then "-Infinity" else "Infinity"
  | Num z =>
      match toDouble z with
      | Num m => integerToString m
      | Infinity negative => if negative then "-Infinity" else "Infinity"
      | NaN => "NaN"
      end
  end.

(** [c || d] on a string that may be [undefined]: the empty string is falsy *)
Definition or_else (c : option string) (d : string) : string :=
  match c with
  | Some s => if bool_decide (s = "") then d else s
  | None => d
  end.

(** [acc += c]: [undefined] is converted to the string "undefined" *)
Definition append_any (acc : string) (c : option string) : string :=
  acc +:+ default "undefined" c.

(** A [Map<string, string>]: iteration is in insertion order, and [set] on a
    present key keeps its place. *)
Definition Map := list (string * string).

Fixpoint Map_set (k v : string) (m : Map) : Map :=
  match m with
  | [] => [(k, v)]
  | (k', v') :: r =>
      if bool_decide (k' = k) then (k, v) :: r else (k', v') :: Map_set k v r
  end.

Fixpoint Map_get (k : string) (m : Map) : option string :=
  match m with
  | [] => None
  | (k', v') :: r => if bool_decide (k' = k) then Some v' else Map_get k r
  end.

Definition LF : string := String "010" "".
Definition DQ : string := String "034" "".

End JS.

(** ** The syntax tree read by the generator *)

(** [ts.JSDocTag]: [tagName.text] and [comment] *)
Record JSDocTag := { tagName : string; comment : option string }.

(** A parameter of a method signature: [name.getText()] and, when the
    parameter is annotated, [type.getFullText()] *)
Record ParameterDeclaration :=
  { param_name : string; param_type : option string }.

(** What a property or method signature offers: [name.getText()],
    [getText()], [type.getFullText()] when there is a type, and the JSDoc
    tags of the node *)
Record Signature :=
  { sig_name : string;
    sig_text : string;
    sig_type : option string;
    sig_jsDoc : list JSDocTag }.

(** [ts.TypeElement] *)
Inductive TypeElement :=
| PropertySignature (s : Signature)
| MethodSignature (s : Signature) (parameters : list ParameterDeclaration)
| OtherElement.

Inductive DeclarationBody :=
| InterfaceBody (members : list TypeElement)
| TypeAliasBody (type : string).

(** [ValidDeclaration = ts.InterfaceDeclaration | ts.TypeAliasDeclaration]:
    [name.getText()], the texts of the type parameters when there are any,
    the JSDoc tags, and the members or [type.getFullText()] *)
Record ValidDeclaration :=
  { decl_name : string;
    typeParameters : option (list string);
    jsDoc : list JSDocTag;
    body : DeclarationBody }.

(** [ts.Statement] *)
Inductive Statement :=
| Declaration (d : ValidDeclaration)
| OtherStatement.

(** [ts.SourceFile]: each statement comes with the 0-based line of its
    start, [getLineAndCharacterOfPosition(statement.getStart()).line] *)
Record SourceFile :=
  { sf_fileName : string;
    sf_statements : list (N * Statement) }.

(** ** The records extracted from the tree *)

Record MethodParameterInfo := { mp_name : string; mp_type : string }.

Inductive MemberKind :=
| property (defaultValue : string)
| method (parameters : list MethodParameterInfo).

(** [PropertyInfo | MethodInfo] *)
Record MemberInfo :=
  { m_name : string;
    m_description : string;
    m_type : string;
    m_fullText : string;
    m_kind : MemberKind }.

Inductive DeclarationKind :=
| interface (members : list MemberInfo)
| typeAlias (type : string).

(** [InterfaceInfo | TypeAliasInfo] *)
Record DeclarationInfo :=
  { sourceFile : string;
    sourceLine : N;
    title : string;
    fullText : string;
    weight : JS.number;
    category : string;
    description : string;
    fileName : string;
    kind : DeclarationKind }.

Definition docsPath : string := "/docs/api/".

(** ** Reading JSDoc tags *)

(** The [tagMatcher] object: a handler per tag name.  A handler updates the
    variables [S] that its closure captures.  [matcher_get] looks a name up
    among the object's own properties; the names that every object inherits
    ([constructor], [toString], [__proto__] and the like) are dealt with in
    [Exn.parseTags]. *)
Definition TagMatcher (S : Type) := list (string * (JSDocTag → S → S)).

Fixpoint matcher_get {S} (tagMatcher : TagMatcher S) (name : string)
  : option (JSDocTag → S → S) :=
  match tagMatcher with
  | [] => None
  | (n, f) :: r => if bool_decide (n = name) then Some f else matcher_get r name
  end.

(** [parseTags(node, tagMatcher)], on the tags [ts.getJSDocTags(node)], when
    no look-up throws: the handlers of the tags are called in source order *)
Definition parseTags {S} (jsDocTags : list JSDocTag) (tagMatcher : TagMatcher S)
  (s : S) : S :=
  foldl (λ s tag,
           match matcher_get tagMatcher (tagName tag) with
           | Some f => f tag s
           | None => s
           end) s jsDocTags.

Definition getDocsCategory (statement : ValidDeclaration) : option string :=
  parseTags (jsDoc statement)
    [("docsCategory", λ tag _, Some (JS.or_else (comment tag) ""))]
    None.

Definition getDeclarationWeight (statement : ValidDeclaration) : JS.number :=
  parseTags (jsDoc statement)
    [("docsWeight", λ tag _, JS.parseInt (JS.or_else (comment tag) "10"))]
    (JS.Num 10).

Definition getDeclarationDescription (statement : ValidDeclaration) : string :=
  parseTags (jsDoc statement)
    [("description", λ tag description, JS.append_any description (comment tag))]
    "".

Definition formatExampleCode (example : option string) : string :=
  JS.LF +:+ JS.LF +:+ JS.strip_comment_stars (default "" example).

Definition getDeclarationFullText (declaration : ValidDeclaration) : string :=
  let name := decl_name declaration in
  let typeParams :=
    match typeParameters declaration with
    | Some tps => "<" +:+ JS.join ", " tps +:+ ">"
    | None => ""
    end in
  name +:+ typeParams.

(** The variables assigned by the tag handlers of [parseMembers] *)
Record MemberVars := { v_description : string; v_defaultValue : string }.

Definition memberMatcher : TagMatcher MemberVars :=
  [("description", λ tag v,
      {| v_description := v_description v +:+ JS.or_else (comment tag) "";
         v_defaultValue := v_defaultValue v |});
   ("example", λ tag v,
      {| v_description := v_description v +:+ formatExampleCode (comment tag);
         v_defaultValue := v_defaultValue v |});
   ("default", λ tag v,
      {| v_description := v_description v;
         v_defaultValue := JS.or_else (comment tag) "" |})].

Definition parseSignature (s : Signature) (k : string → MemberKind) : MemberInfo :=
  let v := parseTags (sig_jsDoc s) memberMatcher
             {| v_description := ""; v_defaultValue := "" |} in
  {| m_name := sig_name s;
     m_description := v_description v;
     m_type := match sig_type s with Some t => JS.trim t | None => "" end;
     m_fullText := sig_text s;
     m_kind := k (v_defaultValue v) |}.

Definition parseMember (member : TypeElement) : list MemberInfo :=
  match member with
  | PropertySignature s => [parseSignature s property]
  | MethodSignature s ps =>
      [parseSignature s
         (λ _, method (map (λ p, {| mp_name := param_name p;
                                    mp_type := default "" (param_type p) |}) ps))]
  | OtherElement => []
  end.

Definition parseMembers (members : list TypeElement) : list MemberInfo :=
  concat (map parseMember members).

Definition parseDeclaration (statement : Statement) (sourceFile : string)
  (sourceLine : N) : option DeclarationInfo :=
  match statement with
  | OtherStatement => None
  | Declaration d =>
      match getDocsCategory d with
      | None => None
      | Some category =>
          let title := decl_name d in
          Some {| sourceFile := sourceFile;
                  sourceLine := sourceLine;
                  title := title;
                  fullText := getDeclarationFullText d;
                  weight := getDeclarationWeight d;
                  category := category;
                  description := getDeclarationDescription d;
                  fileName :=
                    JS.toLowerCase (JS.join "-" (JS.split_upper title));
                  kind := match body d with
                          | InterfaceBody ms => interface (parseMembers ms)
                          | TypeAliasBody t => typeAlias (JS.trim t)
                          end |}
      end
  end.

(** [getStatementsWithSourceLocation]: [substring] clamps the -1 of a
    failed [indexOf] to 0 *)
Definition locate (sf : SourceFile) (st : N * Statement) : Statement * string * N :=
  let serverSourceRoot := "/server/src" in
  let sourceFile :=
    match JS.indexOf serverSourceRoot (sf_fileName sf) with
    | Some i => JS.substring_from i (sf_fileName sf)
    | None => sf_fileName sf
    end in
  (st.2, sourceFile, (st.1 + 1)%N).

Definition getStatementsWithSourceLocation (sourceFiles : list SourceFile)
  : list (Statement * string * N) :=
  foldl (λ st sf, st ++ map (locate sf) (sf_statements sf)) [] sourceFiles.

(** ** Rendering *)

(** A template literal, as the concatenation of its pieces *)
Definition cat (pieces : list string) : string := foldr String.app "" pieces.

(** [generateFrontMatter(title, weight, showToc)]; [date] is what
    [new Date().toISOString()] returns at the call *)
Definition generateFrontMatter (date title : string) (weight : JS.number)
  (showToc : bool) : string :=
  cat ["---"; JS.LF;
       "title: "; JS.DQ; title; JS.DQ; JS.LF;
       "weight: "; JS.toString weight; JS.LF;
       "date: "; date; JS.LF;
       "showtoc: "; if showToc then "true" else "false"; JS.LF;
       "generated: true"; JS.LF;
       "---"; JS.LF;
       "<!-- This file was generated from the Vendure TypeScript source. Do not modify. Instead, re-run ";
       JS.DQ; "generate-docs"; JS.DQ; " -->"; JS.LF].

Definition link (key val : string) : string :=
  cat ["<a href='"; docsPath; "/"; val; "/'>"; key; "</a>"].

Definition renderType (type : string) (knownTypeMap : JS.Map) : string :=
  let typeText := JS.replace_newlines (JS.encode_entities (JS.trim type)) in
  foldl (λ typeText kv, JS.replace kv.1 (link kv.1 kv.2) typeText)
        typeText knownTypeMap.

Definition renderGenerationInfoShortcode (info : DeclarationInfo) : string :=
  cat ["{{< generation-info sourceFile="; JS.DQ; sourceFile info; JS.DQ;
       " sourceLine="; JS.DQ; pretty (sourceLine info); JS.DQ; ">}}";
       JS.LF; JS.LF].

Definition renderInterfaceSignature (fullText : string)
  (members : list MemberInfo) : string :=
  cat ["```ts"; JS.LF;
       "interface "; fullText; " {"; JS.LF;
       JS.join JS.LF (map (λ member, "  " +:+ m_fullText member) members);
       JS.LF; "}"; JS.LF;
       "```"; JS.LF].

Definition kindName (k : MemberKind) : string :=
  match k with property _ => "property" | method _ => "method" end.

(** The [default="..." ] marker of a member, [defaultParam] *)
Definition defaultParam (member : MemberInfo) : string :=
  match m_kind member with
  | property defaultValue =>
      if bool_decide (defaultValue = "") then ""
      else cat ["default="; JS.DQ; defaultValue; JS.DQ; " "]
  | method _ => ""
  end.

Definition memberType (member : MemberInfo) (knownTypeMap : JS.Map) : string :=
  match m_kind member with
  | property _ => renderType (m_type member) knownTypeMap
  | method parameters =>
      let args :=
        JS.join ", "
          (map (λ p, cat [mp_name p; ": "; renderType (mp_type p) knownTypeMap])
               parameters) in
      cat ["("; args; ") => "; renderType (m_type member) knownTypeMap]
  end.

(** One turn of the loop over the members in [renderInterface] *)
Definition renderMember (knownTypeMap : JS.Map) (member : MemberInfo) : string :=
  cat ["### "; m_name member; JS.LF; JS.LF;
       "{{< member-info kind="; JS.DQ; kindName (m_kind member); JS.DQ;
       " type="; JS.DQ; memberType member knownTypeMap; JS.DQ; " ";
       defaultParam member; ">}}"; JS.LF; JS.LF;
       m_description member; JS.LF; JS.LF].

Definition renderInterface (date : string) (info : DeclarationInfo)
  (members : list MemberInfo) (knownTypeMap : JS.Map) : string :=
  cat [generateFrontMatter date (title info) (weight info) true;
       JS.LF; JS.LF; "# "; title info; JS.LF; JS.LF;
       renderGenerationInfoShortcode info;
       description info; JS.LF; JS.LF;
       "## Signature"; JS.LF; JS.LF;
       renderInterfaceSignature (fullText info) members;
       "## Members"; JS.LF; JS.LF;
       cat (map (renderMember knownTypeMap) members)].

Definition renderTypeAlias (date : string) (info : DeclarationInfo)
  (type : string) (knownTypeMap : JS.Map) : string :=
  cat [generateFrontMatter date (title info) (weight info) true;
       JS.LF; JS.LF; "# "; title info; JS.LF; JS.LF;
       renderGenerationInfoShortcode info;
       description info; JS.LF; JS.LF;
       "## Signature"; JS.LF; JS.LF;
       "```ts"; JS.LF; "type "; fullText info; " = "; type; ";"; JS.LF; "```"].

(** The [switch] on [info.kind] in [generateDocs] *)
Definition render (date : string) (info : DeclarationInfo)
  (typeMap : JS.Map) : string :=
  match kind info with
  | interface members => renderInterface date info members typeMap
  | typeAlias type => renderTypeAlias date info type typeMap
  end.

(** [isGenerated]: the pattern [/generated\: true\n---\n/] has no
    metacharacter *)
Definition marker : string := cat ["generated: true"; JS.LF; "---"; JS.LF].

Definition isGenerated (content : string) : bool := JS.includes marker content.

(** ** The generator and its world *)

(** The calls whose order matters to the type map: a [typeMap.set] and a
    call of [renderInterface] or [renderTypeAlias] with the map as it is at
    that moment. *)
Inductive Event :=
| Registered (title path : string)
| Rendered (title : string) (knownTypeMap : JS.Map).

(** What the script reads and writes: the type map it shares between
    passes, the regular files and the directories of the file system, the
    number of times the clock has been read, and the history of the events
    above. *)
Record World :=
  { typeMap : JS.Map;
    files : gmap string string;
    dirs : gset string;
    clock : nat;
    history : list Event }.

Definition existsSync (p : string) (w : World) : bool :=
  bool_decide (is_Some (files w !! p)) || bool_decide (p ∈ dirs w).

(** The effect of [fs.mkdirSync(p)], of [fs.writeFileSync(p, data)] and of
    [fs.unlinkSync(p)] when the call returns; when the first two throw is
    said in [Exn.mkdirSync] and [Exn.writeFileSync] *)
Definition mkdirSync (p : string) (w : World) : World :=
  {| typeMap := typeMap w; files := files w; dirs := {[p]} ∪ dirs w;
     clock := clock w; history := history w |}.

Definition writeFileSync (p data : string) (w : World) : World :=
  {| typeMap := typeMap w; files := <[p:=data]> (files w); dirs := dirs w;
     clock := clock w; history := history w |}.

Definition unlinkSync (p : string) (w : World) : World :=
  {| typeMap := typeMap w; files := delete p (files w); dirs := dirs w;
     clock := clock w; history := history w |}.

(** [None] is the exception of reading a file that is not there *)
Definition readFileSync (p : string) (w : World) : option string := files w !! p.

Definition typeMap_set (k v : string) (w : World) : World :=
  {| typeMap := JS.Map_set k v (typeMap w); files := files w; dirs := dirs w;
     clock := clock w; history := history w ++ [Registered k v] |}.

Definition tick (w : World) : World :=
  {| typeMap := typeMap w; files := files w; dirs := dirs w;
     clock := S (clock w); history := history w |}.

Definition log (e : Event) (w : World) : World :=
  {| typeMap := typeMap w; files := files w; dirs := dirs w;
     clock := clock w; history := history w ++ [e] |}.

Section Generator.

(** [path.join] of two segments *)
Variable path_join : string → string → string.
(** [inside dir p]: the file [p] lies in the tree below [dir], which is what
    [klawSync(dir, { nodir: true })] lists *)
Variable inside : string → string → bool.
(** The constant [outputPath] *)
Variable outputPath : string.
(** [now n] is [new Date().toISOString()] at the [n]-th reading of the clock *)
Variable now : nat → string.

(** The files that [klawSync(dir, { nodir: true })] lists when [dir] is
    there; that it throws when [dir] is not is said in
    [Exn.deleteGeneratedDocs] *)
Definition klawSync (dir : string) (w : World) : list string :=
  filter (λ p, inside dir p = true) (map fst (map_to_list (files w))).

Fixpoint deleteLoop (fileList : list string) (deleteCount : nat) (w : World)
  : option (World * nat) :=
  match fileList with
  | [] => Some (w, deleteCount)
  | file :: rest =>
      match readFileSync file w with
      | None => None
      | Some content =>
          if isGenerated content
          then deleteLoop rest (S deleteCount) (unlinkSync file w)
          else deleteLoop rest deleteCount w
      end
  end.

(** [deleteGeneratedDocs()], with the count it prints *)
Definition deleteGeneratedDocs (w : World) : option (World * nat) :=
  deleteLoop (klawSync outputPath w) 0 w.

(** The callback of [statements.map] in [generateDocs] *)
Definition registerInfo (st : Statement * string * N) (w : World)
  : option DeclarationInfo * World :=
  let info := parseDeclaration st.1.1 st.1.2 st.2 in
  match info with
  | Some i =>
      (info, typeMap_set (title i) (category i +:+ "/" +:+ fileName i) w)
  | None => (info, w)
  end.

Fixpoint mapRegister (statements : list (Statement * string * N)) (w : World)
  : list (option DeclarationInfo) * World :=
  match statements with
  | [] => ([], w)
  | st :: rest =>
      let '(info, w1) := registerInfo st w in
      let '(infos, w2) := mapRegister rest w1 in
      (info :: infos, w2)
  end.

Definition categoryDir (hugoApiDocsPath : string) (info : DeclarationInfo) : string :=
  path_join hugoApiDocsPath (category info).

Definition indexFile (hugoApiDocsPath : string) (info : DeclarationInfo) : string :=
  path_join (categoryDir hugoApiDocsPath info) "_index.md".

Definition docFile (hugoApiDocsPath : string) (info : DeclarationInfo) : string :=
  path_join (categoryDir hugoApiDocsPath info) (fileName info +:+ ".md").

(** The rendering at the head of the loop body: it reads the clock once and
    the type map as it is now *)
Definition renderStep (info : DeclarationInfo) (w : World) : string * World :=
  (render (now (clock w)) info (typeMap w),
   log (Rendered (title info) (typeMap w)) (tick w)).

Definition indexFileContent (date : string) (info : DeclarationInfo) : string :=
  generateFrontMatter date (category info) (JS.Num 10) false
    +:+ cat [JS.LF; JS.LF; "# "; category info].

Definition ensureDir (hugoApiDocsPath : string) (info : DeclarationInfo)
  (w : World) : World :=
  if existsSync (categoryDir hugoApiDocsPath info) w then w
  else mkdirSync (categoryDir hugoApiDocsPath info) w.

Definition ensureIndex (hugoApiDocsPath : string) (info : DeclarationInfo)
  (w : World) : World :=
  if existsSync (indexFile hugoApiDocsPath info) w then w
  else writeFileSync (indexFile hugoApiDocsPath info)
         (indexFileContent (now (clock w)) info) (tick w).

(** The body of the loop over [declarationInfos] *)
Definition emit (hugoApiDocsPath : string) (w : World) (info : DeclarationInfo)
  : World :=
  let '(markdown, w1) := renderStep info w in
  let w2 := ensureDir hugoApiDocsPath info w1 in
  let w3 := ensureIndex hugoApiDocsPath info w2 in
  writeFileSync (docFile hugoApiDocsPath info) markdown w3.

(** [generateDocs(filePaths, hugoApiDocsPath, typeMap)] on the parsed files;
    the type map is the one of the world.  The clock is read for
    [timeStart], and again at the end when something was generated. *)
Definition generateDocs (sourceFiles : list SourceFile)
  (hugoApiDocsPath : string) (w : World) : World :=
  let w0 := tick w in
  let statements := getStatementsWithSourceLocation sourceFiles in
  let '(results, w1) := mapRegister statements w0 in
  let declarationInfos := omap id results in
  let w2 := foldl (emit hugoApiDocsPath) w1 declarationInfos in
  match declarationInfos with
  | [] => w2
  | _ => tick w2
  end.

(** The script without the watch mode: the stale documents are deleted,
    then one pass runs over all the source files. *)
Definition main (sourceFiles : list SourceFile) (w : World) : option World :=
  match deleteGeneratedDocs w with
  | Some (w1, _) => Some (generateDocs sourceFiles outputPath w1)
  | None => None
  end.

(** The listener that the watch mode puts on a source file: when the file
    has changed, a pass runs over that file alone, as it parses then, with
    the type map of the script. *)
Definition onChange (w : World) (sourceFile : SourceFile) : World :=
  generateDocs [sourceFile] outputPath w.

(** The script in watch mode: [main], then the passes of the changes as
    they come in. *)
Definition watch (sourceFiles changes : list SourceFile) (w : World)
  : option World :=
  match main sourceFiles w with
  | Some w1 => Some (foldl onChange w1 changes)
  | None => None
  end.

End Generator.

(** The world at the start of the script: [globalTypeMap] is a new [Map] *)
Definition start (files : gmap string string) (dirs : gset string) : World :=
  {| typeMap := []; files := files; dirs := dirs; clock := 0; history := [] |}.

(** * The generator with its exceptions

    The functions above are the calls as they return.  This part follows the
    same code with the calls that throw: the look-up [tagMatcher[tagName]]
    of [parseTags] on a name that the matcher inherits, [fs.mkdirSync] and
    [fs.writeFileSync] on a path whose directory is not there or that is
    taken, and [klawSync] on a directory that is not there.  An exception is
    not caught anywhere, so the script ends at the first one.  A run that
    completes here is the run of the functions above. *)

Module Exn.

(** The outcome of a piece of the script: it is done, with a result, or it
    has thrown, and the script has ended in the world given *)
Inductive Outcome (A : Type) :=
| Done (a : A)
| Thrown (w : World).

Arguments Done {A} a.
Arguments Thrown {A} w.

(** The world that a piece of the script leaves, done or not *)
Definition world (o : Outcome World) : World :=
  match o with
  | Done w => w
  | Thrown w => w
  end.

(** ** Reading JSDoc tags *)

(** The names of the properties of [Object.prototype] at which
    [tagMatcher[tagName](tag)] throws a TypeError: [__proto__] is an object
    and no function, and [__defineGetter__] and [__defineSetter__] want a
    function as their second argument.  The other inherited names
    ([constructor], [hasOwnProperty], [isPrototypeOf],
    [propertyIsEnumerable], [toLocaleString], [toString], [valueOf],
    [__lookupGetter__], [__lookupSetter__]) are functions that return
    without any effect on the variables of the handlers. *)
Definition throwing (name : string) : bool :=
  bool_decide (name ∈ ["__proto__"; "__defineGetter__"; "__defineSetter__"]).

(** [parseTags(node, tagMatcher)]; [None] is the TypeError *)
Fixpoint parseTags {S} (jsDocTags : list JSDocTag) (tagMatcher : TagMatcher S)
  (s : S) : option S :=
  match jsDocTags with
  | [] => Some s
  | tag :: rest =>
      match matcher_get tagMatcher (tagName tag) with
      | Some f => parseTags rest tagMatcher (f tag s)
      | None =>
          if throwing (tagName tag) then None
          else parseTags rest tagMatcher s
      end
  end.

Definition getDocsCategory (statement : ValidDeclaration)
  : option (option string) :=
  parseTags (jsDoc statement)
    [("docsCategory", λ tag _, Some (JS.or_else (comment tag) ""))]
    None.

Definition getDeclarationWeight (statement : ValidDeclaration)
  : option JS.number :=
  parseTags (jsDoc statement)
    [("docsWeight", λ tag _, JS.parseInt (JS.or_else (comment tag) "10"))]
    (JS.Num 10).

Definition getDeclarationDescription (statement : ValidDeclaration)
  : option string :=
  parseTags (jsDoc statement)
    [("description", λ tag description, JS.append_any description (comment tag))]
    "".

Definition parseSignature (s : Signature) (k : string → MemberKind)
  : option MemberInfo :=
  v ← parseTags (sig_jsDoc s) memberMatcher
         {| v_description := ""; v_defaultValue := "" |};
  Some {| m_name := sig_name s;
          m_description := v_description v;
          m_type := match sig_type s with Some t => JS.trim t | None => "" end;
          m_fullText := sig_text s;
          m_kind := k (v_defaultValue v) |}.

Definition parseMember (member : TypeElement) : option (list MemberInfo) :=
  match member with
  | PropertySignature s => info ← parseSignature s property; Some [info]
  | MethodSignature s ps =>
      info ← parseSignature s
                (λ _, method (map (λ p, {| mp_name := param_name p;
                                           mp_type := default "" (param_type p) |})
                                  ps));
      Some [info]
  | OtherElement => Some []
  end.

Fixpoint parseMembers (members : list TypeElement) : option (list MemberInfo) :=
  match members with
  | [] => Some []
  | member :: rest =>
      infos ← parseMember member;
      more ← parseMembers rest;
      Some (infos ++ more)
  end.

(** [parseDeclaration]: [None] is the TypeError, [Some None] the result
    [undefined].  The tags of the declaration are gone through for the
    category first, and for the weight and the description, and the tags of
    the members last, only when there is a category. *)
Definition parseDeclaration (statement : Statement) (sourceFile : string)
  (sourceLine : N) : option (option DeclarationInfo) :=
  match statement with
  | OtherStatement => Some None
  | Declaration d =>
      category ← getDocsCategory d;
      match category with
      | None => Some None
      | Some category =>
          let title := decl_name d in
          weight ← getDeclarationWeight d;
          description ← getDeclarationDescription d;
          kind ← match body d with
                 | InterfaceBody ms => interface <$> parseMembers ms
                 | TypeAliasBody t => Some (typeAlias (JS.trim t))
                 end;
          Some (Some {| sourceFile := sourceFile;
                        sourceLine := sourceLine;
                        title := title;
                        fullText := getDeclarationFullText d;
                        weight := weight;
                        category := category;
                        description := description;
                        fileName :=
                          JS.toLowerCase (JS.join "-" (JS.split_upper title));
                        kind := kind |})
      end
  end.

(** ** The file system *)

Section Throwing.

Variable path_join : string → string → string.
(** [path.dirname]: the directory that a path lies in *)
Variable dirname : string → string.
Variable inside : string → string → bool.
Variable outputPath : string.
Variable now : nat → string.

(** [fs.mkdirSync(p)] without the option [recursive]: it throws when
    something exists at [p] (EEXIST) and when the directory that [p] lies in
    is not an existing directory (ENOENT, ENOTDIR) *)
Definition mkdirSync (p : string) (w : World) : Outcome World :=
  if existsSync p w then Thrown w
  else if bool_decide (dirname p ∈ dirs w) then Done (mkdirSync p w)
  else Thrown w.

(** [fs.writeFileSync(p, data)]: it throws when [p] is a directory (EISDIR)
    and when the directory that [p] lies in is not an existing directory
    (ENOENT, ENOTDIR) *)
Definition writeFileSync (p data : string) (w : World) : Outcome World :=
  if bool_decide (p ∈ dirs w) then Thrown w
  else if bool_decide (dirname p ∈ dirs w) then Done (writeFileSync p data w)
  else Thrown w.

(** The callback of [statements.map] in [generateDocs] *)
Definition registerInfo (st : Statement * string * N) (w : World)
  : Outcome (option DeclarationInfo * World) :=
  match parseDeclaration st.1.1 st.1.2 st.2 with
  | None => Thrown w
  | Some info =>
      match info with
      | Some i =>
          Done (info, typeMap_set (title i) (category i +:+ "/" +:+ fileName i) w)
      | None => Done (info, w)
      end
  end.

Fixpoint mapRegister (statements : list (Statement * string * N)) (w : World)
  : Outcome (list (option DeclarationInfo) * World) :=
  match statements with
  | [] => Done ([], w)
  | st :: rest =>
      match registerInfo st w with
      | Thrown w' => Thrown w'
      | Done (info, w1) =>
          match mapRegister rest w1 with
          | Thrown w' => Thrown w'
          | Done (infos, w2) => Done (info :: infos, w2)
          end
      end
  end.

Definition ensureDir (hugoApiDocsPath : string) (info : DeclarationInfo)
  (w : World) : Outcome World :=
  if existsSync (categoryDir path_join hugoApiDocsPath info) w then Done w
  else mkdirSync (categoryDir path_join hugoApiDocsPath info) w.

Definition ensureIndex (hugoApiDocsPath : string) (info : DeclarationInfo)
  (w : World) : Outcome World :=
  if existsSync (indexFile path_join hugoApiDocsPath info) w then Done w
  else writeFileSync (indexFile path_join hugoApiDocsPath info)
         (indexFileContent (now (clock w)) info) (tick w).

(** The body of the loop over [declarationInfos] *)
Definition emit (hugoApiDocsPath : string) (w : World) (info : DeclarationInfo)
  : Outcome World :=
  let '(markdown, w1) := renderStep now info w in
  match ensureDir hugoApiDocsPath info w1 with
  | Thrown w' => Thrown w'
  | Done w2 =>
      match ensureIndex hugoApiDocsPath info w2 with
      | Thrown w' => Thrown w'
      | Done w3 =>
          writeFileSync (docFile path_join hugoApiDocsPath info) markdown w3
      end
  end.

(** A [for] loop whose body may throw *)
Fixpoint forEach {A} (body : World → A → Outcome World) (l : list A) (w : World)
  : Outcome World :=
  match l with
  | [] => Done w
  | x :: rest =>
      match body w x with
      | Thrown w' => Thrown w'
      | Done w1 => forEach body rest w1
      end
  end.

Definition generateDocs (sourceFiles : list SourceFile)
  (hugoApiDocsPath : string) (w : World) : Outcome World :=
  let w0 := tick w in
  let statements := getStatementsWithSourceLocation sourceFiles in
  match mapRegister statements w0 with
  | Thrown w' => Thrown w'
  | Done (results, w1) =>
      let declarationInfos := omap id results in
      match forEach (emit hugoApiDocsPath) declarationInfos w1 with
      | Thrown w' => Thrown w'
      | Done w2 =>
          Done match declarationInfos with
               | [] => w2
               | _ => tick w2
               end
      end
  end.

(** [deleteGeneratedDocs]: [klawSync] throws when the directory it is to
    walk is not an existing directory *)
Definition deleteGeneratedDocs (w : World) : Outcome (World * nat) :=
  if bool_decide (outputPath ∈ dirs w)
  then match deleteGeneratedDocs inside outputPath w with
       | Some r => Done r
       | None => Thrown w
       end
  else Thrown w.

Definition main (sourceFiles : list SourceFile) (w : World) : Outcome World :=
  match deleteGeneratedDocs w with
  | Thrown w' => Thrown w'
  | Done (w1, _) => generateDocs sourceFiles outputPath w1
  end.

Definition onChange (w : World) (sourceFile : SourceFile) : Outcome World :=
  generateDocs [sourceFile] outputPath w.

(** The script in watch mode: an exception in a listener ends the script
    as well *)
Definition watch (sourceFiles changes : list SourceFile) (w : World)
  : Outcome World :=
  match main sourceFiles w with
  | Thrown w' => Thrown w'
  | Done w1 => forEach onChange changes w1
  end.

End Throwing.

End Exn.

(** * The vocabulary of the properties *)

(** ** Tags *)

Definition tagged (name : string) (tag : JSDocTag) : bool :=
  bool_decide (tagName tag = name).

(** The tags of a node that bear a given name, in source order *)
Definition tagsNamed (name : string) (tags : list JSDocTag) : list JSDocTag :=
  filter (λ tag, tagged name tag = true) tags.

(** A declaration, and a signature, with other tags *)
Definition withTags (d : ValidDeclaration) (tags : list JSDocTag) : ValidDeclaration :=
  {| decl_name := decl_name d; typeParameters := typeParameters d;
     jsDoc := tags; body := body d |}.

Definition sigWithTags (s : Signature) (tags : list JSDocTag) : Signature :=
  {| sig_name := sig_name s; sig_text := sig_text s; sig_type := sig_type s;
     sig_jsDoc := tags |}.


(** Whether a text starts, after white space and an optional sign, with a
    decimal digit *)
Definition integerPrefix (s : string) : bool :=
  let s1 := JS.trimStart s in
  let s2 :=
    match s1 with
    | String "-" r => r
    | String "+" r => r
    | _ => s1
    end in
  match s2 with
  | String c _ => bool_decide (is_Some (JS.digit c))
  | "" => false
  end.

(** ** File names *)

Fixpoint noUpper (s : string) : bool :=
  match s with
  | "" => true
  | String c r => negb (JS.is_upper c) && noUpper r
  end.




(** The slug in the words of the specification: a hyphen goes in front of
    every upper-case letter (A to Z) that is not the first character
    ([started] says
    that the first character is behind us), and the result is put in lower
    case. *)
Fixpoint hyphenate (started : bool) (s : string) : string :=
  match s with
  | "" => ""
  | String c r =>
      if JS.is_upper c && started
      then String "-" (String c (hyphenate true r))
      else String c (hyphenate true r)
  end.

Definition slugOfTitle (title : string) : string :=
  JS.toLowerCase (hyphenate false title).

(** ** Documents *)

(** The marker [default="text" ] inside the member-info shortcode *)
Definition defaultMarker (text : string) : string :=
  cat ["default="; JS.DQ; text; JS.DQ; " "].

(** The section of a property in the rendered interface, given what stands
    between the type and the closing of the shortcode *)
Definition propertySection (member : MemberInfo) (knownTypeMap : JS.Map)
  (marker : string) : string :=
  cat ["### "; m_name member; JS.LF; JS.LF;
       "{{< member-info kind="; JS.DQ; "property"; JS.DQ;
       " type="; JS.DQ; renderType (m_type member) knownTypeMap; JS.DQ; " ";
       marker; ">}}"; JS.LF; JS.LF;
       m_description member; JS.LF; JS.LF].

(** What [renderInterface] puts out before the loop over the members *)
Definition interfaceHead (date : string) (info : DeclarationInfo)
  (members : list MemberInfo) : string :=
  cat [generateFrontMatter date (title info) (weight info) true;
       JS.LF; JS.LF; "# "; title info; JS.LF; JS.LF;
       renderGenerationInfoShortcode info;
       description info; JS.LF; JS.LF;
       "## Signature"; JS.LF; JS.LF;
       renderInterfaceSignature (fullText info) members;
       "## Members"; JS.LF; JS.LF].

(** The front matter before and after its date *)
Definition frontMatterHead (title : string) (weight : JS.number) : string :=
  cat ["---"; JS.LF;
       "title: "; JS.DQ; title; JS.DQ; JS.LF;
       "weight: "; JS.toString weight; JS.LF].

Definition frontMatterTail (showToc : bool) : string :=
  cat ["showtoc: "; if showToc then "true" else "false"; JS.LF;
       "generated: true"; JS.LF;
       "---"; JS.LF;
       "<!-- This file was generated from the Vendure TypeScript source. Do not modify. Instead, re-run ";
       JS.DQ; "generate-docs"; JS.DQ; " -->"; JS.LF].

(** What follows the front matter in a document *)
Definition body_of (info : DeclarationInfo) (typeMap : JS.Map) : string :=
  match kind info with
  | interface members =>
      cat [JS.LF; JS.LF; "# "; title info; JS.LF; JS.LF;
           renderGenerationInfoShortcode info;
           description info; JS.LF; JS.LF;
           "## Signature"; JS.LF; JS.LF;
           renderInterfaceSignature (fullText info) members;
           "## Members"; JS.LF; JS.LF;
           cat (map (renderMember typeMap) members)]
  | typeAlias type =>
      cat [JS.LF; JS.LF; "# "; title info; JS.LF; JS.LF;
           renderGenerationInfoShortcode info;
           description info; JS.LF; JS.LF;
           "## Signature"; JS.LF; JS.LF;
           "```ts"; JS.LF; "type "; fullText info; " = "; type; ";"; JS.LF; "```"]
  end.

(** ** Passes *)

(** The path registered for a record *)
Definition registeredPath (info : DeclarationInfo) : string :=
  category info +:+ "/" +:+ fileName info.

(** The type map after the records [infos] have been registered in turn *)
Definition registerAll (infos : list DeclarationInfo) (m : JS.Map) : JS.Map :=
  foldl (λ m info, JS.Map_set (title info) (registeredPath info) m) m infos.

(** The records of a pass: [declarationInfos] in [generateDocs] *)
Definition declarationInfos (sourceFiles : list SourceFile) : list DeclarationInfo :=
  omap (λ st, parseDeclaration st.1.1 st.1.2 st.2)
       (getStatementsWithSourceLocation sourceFiles).

(** The world between the two loops of [generateDocs] *)
Definition registered (infos : list DeclarationInfo) (w : World) : World :=
  {| typeMap := registerAll infos (typeMap w);
     files := files w;
     dirs := dirs w;
     clock := S (clock w);
     history := history w ++
       map (λ info, Registered (title info) (registeredPath info)) infos |}.

(** What is left of a file when the paths [l] have been gone through by
    [deleteGeneratedDocs] *)
Definition survives (l : list string) (p content : string) : option string :=
  if bool_decide (p ∈ l) && isGenerated content then None else Some content.

Section Dates.

(** The clocks of two runs *)
Variables now1 now2 : nat → string.

(** Two contents are the same but for the date: they are equal, or they
    are one text around the line of the date, which holds in each the
    reading of the run's own clock. *)
Definition sameButDate (d1 d2 : string) : Prop :=
  d1 = d2
  ∨ ∃ pre post n,
      d1 = pre +:+ "date: " +:+ now1 n +:+ JS.LF +:+ post
      ∧ d2 = pre +:+ "date: " +:+ now2 n +:+ JS.LF +:+ post.

Definition sameTree (f1 f2 : gmap string string) : Prop :=
  ∀ p, option_Forall2 sameButDate (f1 !! p) (f2 !! p).

(** Two worlds that differ in the dates of their files only *)
Definition alike (w1 w2 : World) : Prop :=
  typeMap w1 = typeMap w2 ∧ dirs w1 = dirs w2 ∧ clock w1 = clock w2
  ∧ history w1 = history w2 ∧ sameTree (files w1) (files w2).

End Dates.

(** ** Members and their tags *)

(** The signature of a member that [parseMembers] takes up *)
Definition signatureOf (member : TypeElement) : option Signature :=
  match member with
  | PropertySignature s => Some s
  | MethodSignature s _ => Some s
  | OtherElement => None
  end.

(** What a tag adds to the description of a declaration *)
Definition declarationPiece (t : JSDocTag) : string :=
  if tagged "description" t then default "undefined" (comment t) else "".

(** What a tag adds to the description of a member *)
Definition memberPiece (t : JSDocTag) : string :=
  if tagged "description" t then JS.or_else (comment t) ""
  else if tagged "example" t then formatExampleCode (comment t)
  else "".

(** No line feed *)
Fixpoint noLF (s : string) : bool :=
  match s with
  | "" => true
  | String c r => negb (bool_decide (c = "010"%char)) && noLF r
  end.

(** The start of a continuation line in a JSDoc block: a line feed, a
    space, the asterisk and a space *)
Definition continuation : string := JS.LF +:+ " * ".

(** ** Type texts *)

(** All the code units of a text pass a test *)
Fixpoint allChars (P : ascii → bool) (s : string) : bool :=
  match s with
  | "" => true
  | String c r => P c && allChars P r
  end.

(** The type text before any link is put in: trimmed, with the entities
    encoded and the line feeds replaced *)
Definition encodedText (type : string) : string :=
  JS.replace_newlines (JS.encode_entities (JS.trim type)).

(** A code unit that the encoding lets through and that is no line feed *)
Definition plainChar (c : ascii) : bool :=
  negb (JS.is_entity c) && negb (bool_decide (c = "010"%char)).

(** A code unit that may stand in an encoded text: below U+00A0, no angle
    bracket and no line feed *)
Definition encodedChar (c : ascii) : bool :=
  (JS.code c <? 160)%N
  && negb (bool_decide (c = "<"%char)) && negb (bool_decide (c = ">"%char))
  && negb (bool_decide (c = "010"%char)).

Definition noDollar (s : string) : bool :=
  allChars (λ c, negb (bool_decide (c = "$"%char))) s.

(** ** Type maps and texts, continued *)

(** The keys of a type map in the order of iteration *)
Definition keys (m : JS.Map) : list string := map fst m.

(** A text without its hyphens *)
Fixpoint dropHyphens (s : string) : string :=
  match s with
  | "" => ""
  | String c r =>
      if bool_decide (c = "-"%char) then dropHyphens r
      else String c (dropHyphens r)
  end.

(** Where the reader of numeric character references stands: in plain
    text, behind an ampersand, or in the digits of a reference *)
Inductive DecodeState :=
| InText
| AfterAmpersand
| InReference (n : N).

(** The reading of the numeric character references [&#n;] of a text; what
    is no reference is dropped from the ampersand on *)
Fixpoint decodeFrom (st : DecodeState) (s : string) : string :=
  match s with
  | "" => ""
  | String c r =>
      match st with
      | InText =>
          if bool_decide (c = "&"%char) then decodeFrom AfterAmpersand r
          else String c (decodeFrom InText r)
      | AfterAmpersand =>
          if bool_decide (c = "#"%char) then decodeFrom (InReference 0) r
          else decodeFrom InText r
      | InReference n =>
          if bool_decide (c = ";"%char)
          then String (ascii_of_N n) (decodeFrom InText r)
          else match JS.digit c with
               | Some d => decodeFrom (InReference (10 * n + Z.to_N d)) r
               | None => decodeFrom InText r
               end
      end
  end.

Definition decodeEntities (s : string) : string := decodeFrom InText s.

(** ** Handlers, type texts and written paths *)

(** Whether a tag has a handler in a tag matcher *)
Definition handled {S} (tagMatcher : TagMatcher S) (tag : JSDocTag) : bool :=
  bool_decide (is_Some (matcher_get tagMatcher (tagName tag))).

(** The type texts of a member that [renderInterface] hands to
    [renderType]: its own type and the types of its parameters *)
Definition typeTexts (member : MemberInfo) : list string :=
  m_type member ::
  match m_kind member with
  | property _ => []
  | method parameters => map mp_type parameters
  end.

(** No title of the type map occurs in the encoded text of a type *)
Definition unknownTo (knownTypeMap : JS.Map) (type : string) : Prop :=
  ∀ kv, kv ∈ knownTypeMap → JS.includes kv.1 (encodedText type) = false.

(** The paths that a pass over the records [infos] may write to *)
Definition writtenPaths (path_join : string → string → string) (out : string)
  (infos : list DeclarationInfo) : list string :=
  map (docFile path_join out) infos ++ map (indexFile path_join out) infos.

(** ** Integers in texts *)

Definition isDigit (c : ascii) : bool := bool_decide (is_Some (JS.digit c)).

Definition startsWithDigit (s : string) : bool :=
  match s with
  | String c _ => isDigit c
  | "" => false
  end.

(** The integer that a text of decimal digits writes *)
Fixpoint decimalValue (acc : Z) (digits : string) : Z :=
  match digits with
  | "" => acc
  | String c r => decimalValue (10 * acc + (Z.of_N (JS.code c) - 48)) r
  end.

Definition decimal (digits : string) : Z := decimalValue 0 digits.

(** The factor of a sign, which is the empty text, [+] or [-] *)
Definition signOf (sign : string) : Z :=
  if bool_decide (sign = "-") then -1 else 1.

(** ** Exceptions *)

(** No tag bears a name at which [parseTags] throws *)
Definition quietTags (tags : list JSDocTag) : bool :=
  forallb (λ tag, negb (Exn.throwing (tagName tag))) tags.

Definition quietMember (member : TypeElement) : bool :=
  match signatureOf member with
  | Some s => quietTags (sig_jsDoc s)
  | None => true
  end.

Definition quietStatement (statement : Statement) : bool :=
  match statement with
  | Declaration d =>
      quietTags (jsDoc d)
      && match body d with
         | InterfaceBody members => forallb quietMember members
         | TypeAliasBody _ => true
         end
  | OtherStatement => true
  end.

Definition quietSources (sourceFiles : list SourceFile) : bool :=
  forallb (λ sf, forallb (λ st, quietStatement st.2) (sf_statements sf))
          sourceFiles.

(** A tag at which [parseTags] throws under a tag matcher: it has no handler
    of the matcher's own, and its name is one of the throwing names *)
Definition throws {S} (tagMatcher : TagMatcher S) (tag : JSDocTag) : bool :=
  negb (handled tagMatcher tag) && Exn.throwing (tagName tag).

(** The file system lets the loop body write the document of a record: the
    category directory is there, or nothing is at its path and it can be
    made; the index document and the document lie in the category directory;
    and the path of the document is no directory. *)
Definition writable (path_join : string → string → string)
  (dirname : string → string) (out : string) (info : DeclarationInfo)
  (w : World) : Prop :=
  (categoryDir path_join out info ∈ dirs w
   ∨ (existsSync (categoryDir path_join out info) w = false
      ∧ dirname (categoryDir path_join out info) ∈ dirs w))
  ∧ dirname (indexFile path_join out info) = categoryDir path_join out info
  ∧ dirname (docFile path_join out info) = categoryDir path_join out info
  ∧ (docFile path_join out info ∉ dirs w)
  ∧ docFile path_join out info ≠ categoryDir path_join out info.

(** The file system lets a pass write the documents of its records: each
    record is writable at the start, and no category directory of the pass
    is the path of a document or of an index document of the pass. *)
Definition creatable (path_join : string → string → string)
  (dirname : string → string) (out : string) (infos : list DeclarationInfo)
  (w : World) : Prop :=
  Forall (λ i, writable path_join dirname out i w) infos
  ∧ Forall (λ i,
      Forall (λ j, docFile path_join out j ≠ categoryDir path_join out i
                   ∧ indexFile path_join out j ≠ categoryDir path_join out i)
             infos)
      infos.

Global Instance writable_dec path_join dirname out info w :
  Decision (writable path_join dirname out info w).
Proof. unfold writable. apply _. Defined.

Global Instance creatable_dec path_join dirname out infos w :
  Decision (creatable path_join dirname out infos w).
Proof. unfold creatable. apply _. Defined.

(** ** Example inputs *)

(** [path.join] on a normalized directory and a plain segment *)
Definition slash_join (a b : string) : string :=
  if bool_decide (b = "") then a else a +:+ "/" +:+ b.

(** The files below a directory, by their paths *)
Definition below (dir p : string) : bool := String.prefix (dir +:+ "/") p.

(** A clock that advances by a day at each reading *)
Definition iso (n : nat) : string := "2019-04-0" +:+ pretty n +:+ "T00:00:00.000Z".

Definition tag (name text : string) : JSDocTag :=
  {| tagName := name; comment := Some text |}.

Definition bareTag (name : string) : JSDocTag :=
  {| tagName := name; comment := None |}.

Definition interfaceDecl (name : string) (tags : list JSDocTag)
  (members : list TypeElement) : ValidDeclaration :=
  {| decl_name := name; typeParameters := None; jsDoc := tags;
     body := InterfaceBody members |}.

Definition propertySig (name type : string) (tags : list JSDocTag) : Signature :=
  {| sig_name := name; sig_text := name +:+ ": " +:+ type +:+ ";";
     sig_type := Some (" " +:+ type); sig_jsDoc := tags |}.

Definition exampleFile : SourceFile :=
  {| sf_fileName := "/repo/server/src/common/foo.ts";
     sf_statements :=
       [(3%N, Declaration
                (interfaceDecl "Foo" [tag "docsCategory" "common"]
                   [PropertySignature
                      (propertySig "bar" "string"
                         [tag "description" "the bar value"])]));
        (9%N, Declaration (interfaceDecl "Internal" [] []))] |}.

Definition untaggedFile : SourceFile :=
  {| sf_fileName := "/repo/server/src/common/internal.ts";
     sf_statements := [(0%N, Declaration (interfaceDecl "Internal" [] []))] |}.

(** A generated document and a hand-written one in the output tree, and a
    file elsewhere that has the marker lines *)
Definition staleTree : gmap string string :=
  {[ "/out/common/foo.md" :=
       generateFrontMatter (iso 1) "Foo" (JS.Num 10) true +:+ "# Foo";
     "/out/common/notes.md" := "# Notes, generated: false";
     "/srv/readme.md" := marker ]}.


(** [path.dirname] of a normalized absolute path: the text before its last
    slash, and the root for a path that lies in the root *)
Fixpoint beforeLastSlash (p : string) : option string :=
  match p with
  | "" => None
  | String c r =>
      match beforeLastSlash r with
      | Some d => Some (String c d)
      | None => if bool_decide (c = "/"%char) then Some "" else None
      end
  end.

Definition parent (p : string) : string :=
  match beforeLastSlash p with
  | Some "" => "/"
  | Some d => d
  | None => "."
  end.

(** The directories of a tree in which the output directory is there and
    empty *)
Definition outDirs : gset string := {[ "/"; "/out" ]}.


(** The record of a type alias whose type names a type *)
Definition aliasInfo : DeclarationInfo :=
  {| sourceFile := "/server/src/common.ts";
     sourceLine := 1;
     title := "Id";
     fullText := "Id";
     weight := JS.Num 10;
     category := "common";
     description := "";
     fileName := "id";
     kind := typeAlias "Bar | string" |}.

(** The record of an interface with a property and a method *)
Definition membersInfo : DeclarationInfo :=
  {| sourceFile := "/server/src/common.ts";
     sourceLine := 1;
     title := "Foo";
     fullText := "Foo";
     weight := JS.Num 10;
     category := "common";
     description := "";
     fileName := "foo";
     kind := interface
       [{| m_name := "take"; m_description := ""; m_type := "number";
           m_fullText := "take: number;"; m_kind := property "" |};
        {| m_name := "find"; m_description := ""; m_type := "Foo";
           m_fullText := "find(id: string): Foo;";
           m_kind := method [{| mp_name := "id"; mp_type := " string" |}] |}] |}.

(** * Properties *)

#[local] Arguments String.append : simpl nomatch.

(** ** Strings *)

Module Str.

Lemma app_nil_r (s : string) : s +:+ "" = s.
Proof. induction s as [|c s IH]; simpl; [done | by rewrite IH]. Qed.

Lemma app_assoc (a b c : string) : (a +:+ b) +:+ c = a +:+ b +:+ c.
Proof. induction a as [|x a IH]; simpl; [done | by rewrite IH]. Qed.

Lemma app_cons (c : ascii) (a b : string) : String c a +:+ b = String c (a +:+ b).
Proof. done. Qed.

Lemma app_eq_nil (a b : string) : a +:+ b = "" → a = "" ∧ b = "".
Proof. destruct a; simpl; [done | discriminate]. Qed.

Lemma strip_prefix_app (pat post : string) :
  JS.strip_prefix pat (pat +:+ post) = Some post.
Proof.
  induction pat as [|a pat IH]; simpl; [done |].
  by rewrite bool_decide_eq_true_2.
Qed.

Lemma strip_prefix_Some (pat s post : string) :
  JS.strip_prefix pat s = Some post → s = pat +:+ post.
Proof.
  revert s. induction pat as [|a pat IH]; intros s; simpl.
  - by intros [= ->].
  - destruct s as [|b s]; [done |]. case_bool_decide; [|done].
    intros E. apply IH in E. by subst.
Qed.

Lemma cut_Some (pat s pre post : string) :
  JS.cut pat s = Some (pre, post) → s = pre +:+ pat +:+ post.
Proof.
  revert pre. induction s as [|c s IH]; intros pre; simpl.
  - destruct (JS.strip_prefix pat "") eqn:E; [|done].
    intros [= <- <-]. by apply strip_prefix_Some in E.
  - destruct (JS.strip_prefix pat (String c s)) eqn:E.
    + intros [= <- <-]. by apply strip_prefix_Some in E.
    + destruct (JS.cut pat s) as [[pre' post']|] eqn:C; [|done].
      intros [= <- <-]. simpl. f_equal. by apply IH.
Qed.

Lemma cut_prefix (pat s post : string) :
  JS.strip_prefix pat s = Some post → JS.cut pat s = Some ("", post).
Proof. intros E. destruct s; simpl; by rewrite E. Qed.

Lemma cut_is_Some (pat pre post : string) :
  is_Some (JS.cut pat (pre +:+ pat +:+ post)).
Proof.
  induction pre as [|c pre IH]; simpl.
  - rewrite (cut_prefix pat _ post); [by eexists | apply strip_prefix_app].
  - destruct (JS.strip_prefix pat _); [by eexists |].
    destruct IH as [[a b] ->]. by eexists.
Qed.

(** [includes] is the substring relation *)
Lemma includes_spec (pat s : string) :
  JS.includes pat s = true ↔ ∃ pre post, s = pre +:+ pat +:+ post.
Proof.
  unfold JS.includes. rewrite bool_decide_eq_true. split.
  - intros [[pre post] H]. exists pre, post. by apply cut_Some.
  - intros (pre & post & ->). apply cut_is_Some.
Qed.

End Str.

(** [isGenerated] holds of the contents that contain the marker lines *)
Lemma isGenerated_spec (content : string) :
  isGenerated content = true ↔ ∃ pre post, content = pre +:+ marker +:+ post.
Proof. apply Str.includes_spec. Qed.

(** ** Tags *)

Lemma parseTags_app {S} (l1 l2 : list JSDocTag) (m : TagMatcher S) (s : S) :
  parseTags (l1 ++ l2) m s = parseTags l2 m (parseTags l1 m s).
Proof. apply foldl_app. Qed.

Lemma parseTags_snoc {S} (l : list JSDocTag) (tag : JSDocTag)
  (m : TagMatcher S) (s : S) :
  parseTags (l ++ [tag]) m s =
  match matcher_get m (tagName tag) with
  | Some f => f tag (parseTags l m s)
  | None => parseTags l m s
  end.
Proof. by rewrite parseTags_app. Qed.

Lemma tagsNamed_app (name : string) (l1 l2 : list JSDocTag) :
  tagsNamed name (l1 ++ l2) = tagsNamed name l1 ++ tagsNamed name l2.
Proof. apply filter_app. Qed.

Lemma tagsNamed_cons (name : string) (tag : JSDocTag) (l : list JSDocTag) :
  tagsNamed name (tag :: l) =
  if tagged name tag then tag :: tagsNamed name l else tagsNamed name l.
Proof.
  unfold tagsNamed. destruct (tagged name tag) eqn:E.
  - by rewrite filter_cons_True.
  - rewrite filter_cons_False; [done | by rewrite E].
Qed.

(** A matcher with one handler that overwrites its variable: the last tag
    of that name decides. *)
Lemma parseTags_last {S} (name : string) (f : JSDocTag → S) (tags : list JSDocTag)
  (s : S) :
  parseTags tags [(name, λ tag _, f tag)] s =
  match last (tagsNamed name tags) with
  | Some tag => f tag
  | None => s
  end.
Proof.
  induction tags as [|tag tags IH] using rev_ind; [done |].
  rewrite parseTags_snoc, tagsNamed_app, tagsNamed_cons. simpl.
  change (tagsNamed name []) with (@nil JSDocTag). unfold tagged.
  destruct (decide (tagName tag = name)) as [E|E].
  - rewrite (bool_decide_eq_true_2 _ E), (bool_decide_eq_true_2 _ (eq_sym E)).
    by rewrite last_snoc.
  - rewrite (bool_decide_eq_false_2 _ E), bool_decide_eq_false_2 by congruence.
    by rewrite app_nil_r.
Qed.

Lemma tagsNamed_nil_iff (name : string) (tags : list JSDocTag) :
  tagsNamed name tags = [] ↔ ∀ tag, tag ∈ tags → tagName tag ≠ name.
Proof.
  induction tags as [|t tags IH]; [by split; [intros _ ? ?%elem_of_nil |] |].
  rewrite tagsNamed_cons. unfold tagged. case_bool_decide as E.
  - split; [done |]. intros H. destruct (H t); [left | done].
  - rewrite IH. split.
    + intros H tag [->|Hin]%elem_of_cons; auto.
    + intros H tag Hin. apply H. by right.
Qed.

Lemma last_tagsNamed_split (name : string) (pre post : list JSDocTag)
  (tag : JSDocTag) :
  tagName tag = name → tagsNamed name post = [] →
  last (tagsNamed name (pre ++ tag :: post)) = Some tag.
Proof.
  intros Hn Hpost. rewrite tagsNamed_app, tagsNamed_cons, Hpost.
  unfold tagged. rewrite (bool_decide_eq_true_2 _ Hn). by rewrite last_snoc.
Qed.

(** The declaration-level description only grows: what is read from the
    tags is appended to what was there. *)
Lemma declaration_description_acc (tags : list JSDocTag) (acc : string) :
  parseTags tags
    [("description", λ tag description, JS.append_any description (comment tag))]
    acc
  = acc +:+ parseTags tags
      [("description", λ tag description, JS.append_any description (comment tag))]
      "".
Proof.
  induction tags as [|tag tags IH] using rev_ind.
  - by rewrite Str.app_nil_r.
  - rewrite !parseTags_snoc. simpl. case_bool_decide; [|done].
    unfold JS.append_any in *. by rewrite IH, Str.app_assoc.
Qed.

Lemma getDeclarationDescription_app (d : ValidDeclaration) (l1 l2 : list JSDocTag) :
  getDeclarationDescription (withTags d (l1 ++ l2)) =
  getDeclarationDescription (withTags d l1)
    +:+ getDeclarationDescription (withTags d l2).
Proof.
  unfold getDeclarationDescription. simpl.
  by rewrite parseTags_app, declaration_description_acc.
Qed.

(** The same for the description of a member, which no tag of the member
    matcher ever shortens. *)
Lemma member_description_acc (tags : list JSDocTag) (v : MemberVars) :
  v_description (parseTags tags memberMatcher v) =
  v_description v
    +:+ v_description (parseTags tags memberMatcher
                         {| v_description := ""; v_defaultValue := "" |}).
Proof.
  induction tags as [|tag tags IH] using rev_ind.
  - simpl. by rewrite Str.app_nil_r.
  - rewrite !parseTags_snoc. simpl.
    repeat case_bool_decide; simpl; rewrite ?IH, ?Str.app_assoc; done.
Qed.

Lemma member_description_app (s : Signature) (k : string → MemberKind)
  (l1 l2 : list JSDocTag) :
  m_description (parseSignature (sigWithTags s (l1 ++ l2)) k) =
  m_description (parseSignature (sigWithTags s l1) k)
    +:+ m_description (parseSignature (sigWithTags s l2) k).
Proof.
  unfold parseSignature. simpl. by rewrite parseTags_app, member_description_acc.
Qed.

(** The default value of a member is the text of its last [default] tag *)
Lemma member_default_last (tags : list JSDocTag) (v : MemberVars) :
  v_defaultValue (parseTags tags memberMatcher v) =
  match last (tagsNamed "default" tags) with
  | Some tag => JS.or_else (comment tag) ""
  | None => v_defaultValue v
  end.
Proof.
  induction tags as [|tag tags IH] using rev_ind; [done |].
  rewrite parseTags_snoc, tagsNamed_app, tagsNamed_cons. simpl.
  change (tagsNamed "default" []) with (@nil JSDocTag). unfold tagged.
  destruct (decide (tagName tag = "default")) as [E|E].
  - rewrite (bool_decide_eq_true_2 _ E), E. simpl. by rewrite last_snoc.
  - rewrite (bool_decide_eq_false_2 _ E), app_nil_r.
    repeat case_bool_decide; simpl; congruence.
Qed.

(** ** Numbers *)

Lemma digits_go_Some (s : string) (n : Z) : is_Some (JS.digits_go (Some n) s).
Proof.
  revert n. induction s as [|c s IH]; intros n; simpl; [by eexists |].
  destruct (JS.digit c); [apply IH | by eexists].
Qed.

Lemma digits_go_start (s : string) :
  JS.digits_go None s = None ↔ startsWithDigit s = false.
Proof.
  destruct s as [|c s]; simpl; [done |]. unfold isDigit.
  destruct (JS.digit c) as [d|] eqn:E.
  - split.
    + intros H. destruct (digits_go_Some s (10 * 0 + d)) as [x Hx]. congruence.
    + intros H. apply bool_decide_eq_false in H. destruct H. by eexists.
  - split; [|done]. intros _. apply bool_decide_eq_false. by intros [? ?].
Qed.

(** The text behind the white space and the sign *)
Lemma integerPrefix_sign (s : string) :
  ∃ (sg : Z) (s2 : string),
    JS.parseInt s = match JS.digits_go None s2 with
                    | None => JS.NaN
                    | Some n => JS.toDouble (sg * n)
                    end
    ∧ integerPrefix s = startsWithDigit s2.
Proof.
  unfold integerPrefix, JS.parseInt.
  set (s1 := JS.trimStart s). clearbody s1.
  destruct s1 as [|c r]; [by exists 1, "" |].
  destruct (decide (c = "-"%char)) as [->|N1]; [by exists (-1), r |].
  destruct (decide (c = "+"%char)) as [->|N2]; [by exists 1, r |].
  exists 1, (String c r).
  destruct c as [[] [] [] [] [] [] [] []]; try done.
Qed.

Lemma parseInt_NaN (s : string) : integerPrefix s = false → JS.parseInt s = JS.NaN.
Proof.
  destruct (integerPrefix_sign s) as (sg & s2 & -> & ->).
  intros H. apply digits_go_start in H. by rewrite H.
Qed.

Lemma digit_value (c : ascii) (d : Z) :
  JS.digit c = Some d → d = Z.of_N (JS.code c) - 48.
Proof. unfold JS.digit. case_match; [|done]. by intros [= <-]. Qed.

Lemma digit_not_space (c : ascii) : isDigit c = true → JS.is_space c = false.
Proof. destruct c as [[] [] [] [] [] [] [] []]; done. Qed.

Lemma digits_go_decimal (digits rest : string) (acc : Z) :
  allChars isDigit digits = true → startsWithDigit rest = false →
  JS.digits_go (Some acc) (digits +:+ rest) = Some (decimalValue acc digits).
Proof.
  revert acc. induction digits as [|c digits IH]; intros acc Hd Hr.
  - simpl. destruct rest as [|c r]; [done |]. simpl in *. unfold isDigit in Hr.
    destruct (JS.digit c); [|done].
    apply bool_decide_eq_false in Hr. destruct Hr. by eexists.
  - simpl in Hd. apply andb_true_iff in Hd as [Hc Hd].
    unfold isDigit in Hc. apply bool_decide_eq_true in Hc as [d Hc].
    simpl. rewrite Hc. simpl. rewrite IH by done.
    by rewrite (digit_value _ _ Hc).
Qed.

Lemma decimalValue_nonneg (digits : string) (acc : Z) :
  allChars isDigit digits = true → 0 <= acc → 0 <= decimalValue acc digits.
Proof.
  revert acc. induction digits as [|c digits IH]; intros acc Hd Ha; [done |].
  simpl in Hd. apply andb_true_iff in Hd as [Hc Hd]. simpl. apply IH; [done |].
  unfold isDigit, JS.digit in Hc. case_match eqn:E.
  - apply andb_true_iff in E as [E _]. apply N.leb_le in E. lia.
  - apply bool_decide_eq_true in Hc as [? ?]. done.
Qed.

Lemma trimStart_spaces (ws x : string) :
  allChars JS.is_space ws = true → JS.trimStart (ws +:+ x) = JS.trimStart x.
Proof.
  induction ws as [|c ws IH]; [done |]. simpl.
  intros [Hc Hw]%andb_true_iff. by rewrite Hc, IH.
Qed.

(** The integer that [parseInt] reads from a text made of white space, a
    sign, digits, and a rest that does not go on with a digit *)
Lemma parseInt_decimal (ws sign digits rest : string) :
  allChars JS.is_space ws = true →
  sign = "" ∨ sign = "+" ∨ sign = "-" →
  digits ≠ "" → allChars isDigit digits = true → startsWithDigit rest = false →
  JS.parseInt (ws +:+ sign +:+ digits +:+ rest)
  = JS.toDouble (signOf sign * decimal digits).
Proof.
  intros Hw Hs Hne Hd Hr. unfold JS.parseInt. rewrite trimStart_spaces by done.
  destruct digits as [|c digits]; [done |].
  pose proof Hd as Hd'. simpl in Hd'. apply andb_true_iff in Hd' as [Hc Hds].
  pose proof (digit_not_space _ Hc) as Hsp.
  assert (JS.digits_go None (String c (digits +:+ rest))
          = Some (decimal (String c digits))) as D.
  { pose proof Hc as Hc'. unfold isDigit in Hc'.
    apply bool_decide_eq_true in Hc' as [d Hc'].
    simpl. rewrite Hc'. simpl. rewrite digits_go_decimal by done.
    unfold decimal. simpl. by rewrite (digit_value _ _ Hc'). }
  set (x := digits +:+ rest) in *.
  destruct Hs as [->|[->| ->]].
  - change ("" +:+ String c digits +:+ rest) with (String c x).
    cbn [JS.trimStart]. rewrite Hsp.
    assert (match String c x with
            | String "-" r => (-1, r)
            | String "+" r => (1, r)
            | _ => (1, String c x)
            end = (1, String c x)) as ->.
    { clear -Hc. destruct c as [[] [] [] [] [] [] [] []]; done. }
    by rewrite D.
  - change ("+" +:+ String c digits +:+ rest) with (String "+" (String c x)).
    cbn [JS.trimStart]. change (JS.is_space "+") with false. cbv iota beta.
    by rewrite D.
  - change ("-" +:+ String c digits +:+ rest) with (String "-" (String c x)).
    cbn [JS.trimStart]. change (JS.is_space "-") with false. cbv iota beta.
    by rewrite D.
Qed.

Lemma toDouble_safe (z : Z) : Z.abs z < 2 ^ 53 → JS.toDouble z = JS.Num z.
Proof. intros H. unfold JS.toDouble. by rewrite (proj2 (Z.ltb_lt _ _) H). Qed.

Lemma toString_safe (z : Z) : Z.abs z < 2 ^ 53 → JS.toString (JS.Num z) = pretty z.
Proof.
  intros H. unfold JS.toString. rewrite toDouble_safe by done.
  unfold JS.integerToString. by rewrite (proj2 (Z.ltb_lt _ _) H).
Qed.

(** ** The description of a declaration *)

(** C10. A declaration-level description tag with no comment text appends
    the literal text "undefined" to the description extracted so far (the
    handler concatenates [tag.comment] as it is), whereas at member level
    the same tag appends nothing (the handler guards with [|| '']). *)
Theorem description_tag_without_comment
  (d : ValidDeclaration) (pre post : list JSDocTag) (t : JSDocTag) :
  jsDoc d = pre ++ t :: post →
  tagName t = "description" →
  comment t = None →
  getDeclarationDescription d =
    getDeclarationDescription (withTags d pre) +:+ "undefined"
      +:+ getDeclarationDescription (withTags d post)
  ∧ ∀ (s : Signature) (k : string → MemberKind),
      sig_jsDoc s = pre ++ t :: post →
      m_description (parseSignature s k) =
        m_description (parseSignature (sigWithTags s pre) k)
          +:+ m_description (parseSignature (sigWithTags s post) k).
Proof.
  intros Hd Hn Hc. split.
  - replace d with (withTags d (pre ++ [t] ++ post))
      by (destruct d; simpl in *; by subst).
    rewrite !getDeclarationDescription_app. do 2 f_equal.
    unfold getDeclarationDescription, parseTags. simpl.
    by rewrite Hn, bool_decide_eq_true_2, Hc.
  - intros s k Hs.
    replace s with (sigWithTags s (pre ++ [t] ++ post)) at 1
      by (destruct s; simpl in *; by subst).
    rewrite !member_description_app.
    assert (m_description (parseSignature (sigWithTags s [t]) k) = "") as ->; [|done].
    unfold parseSignature, parseTags. simpl.
    by rewrite Hn, bool_decide_eq_true_2, Hc.
Qed.

Lemma description_tag_without_comment_witness :
  getDeclarationDescription
    (interfaceDecl "Foo" [tag "description" "A foo. "; bareTag "description";
                          tag "description" "More."] [])
  = "A foo. undefinedMore."
  ∧ m_description
      (parseSignature
         (propertySig "bar" "string"
            [tag "description" "A foo. "; bareTag "description";
             tag "description" "More."]) property)
    = "A foo. More.".
Proof.
  pose proof (description_tag_without_comment
    (interfaceDecl "Foo" [tag "description" "A foo. "; bareTag "description";
                          tag "description" "More."] [])
    [tag "description" "A foo. "] [tag "description" "More."]
    (bareTag "description") eq_refl eq_refl eq_refl) as [H1 H2].
  split; [exact H1 |].
  exact (H2 (propertySig "bar" "string" _) property eq_refl).
Defined.

(** ** The weight of a declaration *)

Lemma getDeclarationWeight_last (d : ValidDeclaration) :
  getDeclarationWeight d =
  match last (tagsNamed "docsWeight" (jsDoc d)) with
  | Some t => JS.parseInt (JS.or_else (comment t) "10")
  | None => JS.Num 10
  end.
Proof. apply (parseTags_last "docsWeight"). Qed.

(** C2, as the code has it. A declaration without a weight tag has weight
    10, and so has one whose last weight tag carries no comment text. A last
    weight tag whose text does not start (after white space and an optional
    sign) with a decimal digit gives NaN, not 10. One whose text is white
    space, an optional sign, decimal digits and a rest that does not go on
    with a digit gives the Number value for the integer that the sign and the
    digits write, whatever the rest is: that integer itself below 2^53 in
    magnitude, with its decimal digits as its text in the front matter, and
    the nearest double beyond. *)
Theorem weight_of_declaration (d : ValidDeclaration) :
  (tagsNamed "docsWeight" (jsDoc d) = [] → getDeclarationWeight d = JS.Num 10)
  ∧ ∀ t, last (tagsNamed "docsWeight" (jsDoc d)) = Some t →
      (comment t = None ∨ comment t = Some "" →
         getDeclarationWeight d = JS.Num 10)
      ∧ (∀ c, comment t = Some c → c ≠ "" → integerPrefix c = false →
           getDeclarationWeight d = JS.NaN)
      ∧ (∀ ws sign digits rest,
           comment t = Some (ws +:+ sign +:+ digits +:+ rest) →
           allChars JS.is_space ws = true →
           sign = "" ∨ sign = "+" ∨ sign = "-" →
           digits ≠ "" → allChars isDigit digits = true →
           startsWithDigit rest = false →
           getDeclarationWeight d = JS.toDouble (signOf sign * decimal digits)
           ∧ (decimal digits < 2 ^ 53 →
                getDeclarationWeight d = JS.Num (signOf sign * decimal digits)
                ∧ JS.toString (getDeclarationWeight d)
                  = pretty (signOf sign * decimal digits))).
Proof.
  rewrite getDeclarationWeight_last. split; [by intros -> |].
  intros t ->. split; [|split].
  - by intros [-> | ->].
  - intros c -> Hc Hp. unfold JS.or_else.
    rewrite (bool_decide_eq_false_2 _ Hc). by apply parseInt_NaN.
  - intros ws sign digits rest -> Hw Hs Hne Hd Hr.
    assert (ws +:+ sign +:+ digits +:+ rest ≠ "") as Hc.
    { intros E. apply Str.app_eq_nil in E as [_ E].
      apply Str.app_eq_nil in E as [_ E]. by apply Str.app_eq_nil in E as [E _]. }
    unfold JS.or_else. rewrite (bool_decide_eq_false_2 _ Hc).
    rewrite parseInt_decimal by done. split; [done |]. intros Hlt.
    pose proof (decimalValue_nonneg digits 0 Hd (Z.le_refl 0)) as Hnn.
    fold (decimal digits) in Hnn.
    assert (Z.abs (signOf sign * decimal digits) < 2 ^ 53) as Ha.
    { unfold signOf. case_bool_decide; lia. }
    by rewrite toDouble_safe, toString_safe.
Qed.

Lemma weight_of_declaration_witness :
  getDeclarationWeight (interfaceDecl "Foo" [] []) = JS.Num 10
  ∧ getDeclarationWeight (interfaceDecl "Foo" [bareTag "docsWeight"] []) = JS.Num 10
  ∧ getDeclarationWeight (interfaceDecl "Foo" [tag "docsWeight" "heavy"] []) = JS.NaN
  ∧ getDeclarationWeight (interfaceDecl "Foo" [tag "docsWeight" " -5 (first)"] [])
    = JS.Num (-5)
  ∧ getDeclarationWeight
      (interfaceDecl "Foo" [tag "docsWeight" "9007199254740993"] [])
    = JS.Num 9007199254740992.
Proof.
  split; [|split; [|split; [|split]]].
  - exact (proj1 (weight_of_declaration (interfaceDecl "Foo" [] [])) eq_refl).
  - exact (proj1 (proj2 (weight_of_declaration
                           (interfaceDecl "Foo" [bareTag "docsWeight"] []))
                        (bareTag "docsWeight") eq_refl)
                 (or_introl eq_refl)).
  - refine (proj1 (proj2 (proj2 (weight_of_declaration
                           (interfaceDecl "Foo" [tag "docsWeight" "heavy"] []))
                        (tag "docsWeight" "heavy") eq_refl))
                  "heavy" eq_refl _ eq_refl).
    discriminate.
  - destruct (proj2 (weight_of_declaration
                      (interfaceDecl "Foo" [tag "docsWeight" " -5 (first)"] []))
                (tag "docsWeight" " -5 (first)") eq_refl) as (_ & _ & H).
    destruct (H " " "-" "5" " (first)" eq_refl eq_refl
                (or_intror (or_intror eq_refl))) as [_ H2];
      [discriminate | reflexivity | reflexivity |].
    apply H2. reflexivity.
  - destruct (proj2 (weight_of_declaration
                      (interfaceDecl "Foo"
                         [tag "docsWeight" "9007199254740993"] []))
                (tag "docsWeight" "9007199254740993") eq_refl) as (_ & _ & H).
    destruct (H "" "" "9007199254740993" "" eq_refl eq_refl
                (or_introl eq_refl)) as [H1 _];
      [discriminate | reflexivity | reflexivity |].
    exact H1.
Defined.

(** C2 as stated fails: a weight tag with the malformed text [heavy] gives
    the weight NaN, which is not the default 10. *)
Lemma malformed_weight_is_NaN :
  getDeclarationWeight (interfaceDecl "Foo" [tag "docsWeight" "heavy"] []) = JS.NaN
  ∧ getDeclarationWeight (interfaceDecl "Foo" [tag "docsWeight" "heavy"] [])
    ≠ JS.Num 10.
Proof. split; [reflexivity | discriminate]. Qed.

(** ** The default marker of a property *)

Lemma cat_app (l1 l2 : list string) : cat (l1 ++ l2) = cat l1 +:+ cat l2.
Proof.
  induction l1 as [|x l1 IH]; simpl; [done |].
  by rewrite IH, Str.app_assoc.
Qed.

Lemma cat_singleton (x : string) : cat [x] = x.
Proof. apply Str.app_nil_r. Qed.

Lemma renderInterface_split (date : string) (info : DeclarationInfo)
  (members : list MemberInfo) (knownTypeMap : JS.Map) :
  renderInterface date info members knownTypeMap =
  interfaceHead date info members
    +:+ cat (map (renderMember knownTypeMap) members).
Proof.
  unfold interfaceHead.
  rewrite <- (cat_singleton (cat (map (renderMember knownTypeMap) members))) at 1.
  by rewrite <- cat_app.
Qed.

(** Every member section is a part of the rendered interface *)
Lemma renderInterface_has_section (date : string) (info : DeclarationInfo)
  (members : list MemberInfo) (knownTypeMap : JS.Map) (member : MemberInfo) :
  member ∈ members →
  ∃ pre post,
    renderInterface date info members knownTypeMap =
    pre +:+ renderMember knownTypeMap member +:+ post.
Proof.
  intros (l1 & l2 & ->)%list_elem_of_split.
  rewrite renderInterface_split, map_app, cat_app.
  exists (interfaceHead date info (l1 ++ member :: l2)
            +:+ cat (map (renderMember knownTypeMap) l1)),
         (cat (map (renderMember knownTypeMap) l2)).
  by rewrite Str.app_assoc.
Qed.

Lemma propertySection_split (member : MemberInfo) (knownTypeMap : JS.Map)
  (marker : string) :
  ∃ pre post, ∀ m, propertySection member knownTypeMap m = pre +:+ m +:+ post.
Proof.
  exists (cat ["### "; m_name member; JS.LF; JS.LF;
               "{{< member-info kind="; JS.DQ; "property"; JS.DQ;
               " type="; JS.DQ; renderType (m_type member) knownTypeMap; JS.DQ;
               " "]),
         (cat [">}}"; JS.LF; JS.LF; m_description member; JS.LF; JS.LF]).
  intros m. unfold propertySection.
  change (cat ?l) with
    (cat (["### "; m_name member; JS.LF; JS.LF;
           "{{< member-info kind="; JS.DQ; "property"; JS.DQ;
           " type="; JS.DQ; renderType (m_type member) knownTypeMap; JS.DQ;
           " "]
          ++ m :: [">}}"; JS.LF; JS.LF; m_description member; JS.LF; JS.LF]))
    at 1.
  by rewrite cat_app.
Qed.

(** C7, as the code has it. The default value of a property is the text of
    its last default-value tag. When that text is not empty (the text 5,
    say), the shortcode of the member section carries the parameter
    [default="5" ] right behind the type, and the section holds that marker;
    when the property has no default-value tag, or the last one has no text,
    the shortcode closes right behind the type, with no default parameter.
    The member section is a part of the document rendered for the
    interface. *)
Theorem default_marker_round_trip (s : Signature) (knownTypeMap : JS.Map) :
  parseMember (PropertySignature s) = [parseSignature s property]
  ∧ (∀ t v, last (tagsNamed "default" (sig_jsDoc s)) = Some t →
          comment t = Some v → v ≠ "" →
          defaultParam (parseSignature s property) = defaultMarker v
          ∧ renderMember knownTypeMap (parseSignature s property) =
            propertySection (parseSignature s property) knownTypeMap
              (defaultMarker v)
          ∧ JS.includes (defaultMarker v)
              (renderMember knownTypeMap (parseSignature s property)) = true)
  ∧ (tagsNamed "default" (sig_jsDoc s) = []
     ∨ (∃ t, last (tagsNamed "default" (sig_jsDoc s)) = Some t
             ∧ JS.or_else (comment t) "" = "") →
       defaultParam (parseSignature s property) = ""
       ∧ renderMember knownTypeMap (parseSignature s property) =
         propertySection (parseSignature s property) knownTypeMap "")
  ∧ ∀ date info members,
      parseSignature s property ∈ members →
      ∃ pre post,
        renderInterface date info members knownTypeMap =
        pre +:+ renderMember knownTypeMap (parseSignature s property) +:+ post.
Proof.
  split; [done |].
  assert (∀ v, m_kind (parseSignature s property) = property v →
               renderMember knownTypeMap (parseSignature s property) =
               propertySection (parseSignature s property) knownTypeMap
                 (defaultParam (parseSignature s property))) as R.
  { intros v Hv. unfold renderMember, propertySection, memberType, kindName.
    by rewrite Hv. }
  assert (m_kind (parseSignature s property) =
          property (match last (tagsNamed "default" (sig_jsDoc s)) with
                    | Some t => JS.or_else (comment t) ""
                    | None => ""
                    end)) as K.
  { unfold parseSignature. simpl. by rewrite member_default_last. }
  split; [|split].
  3: { intros date info members. apply renderInterface_has_section. }
  - intros t v Ht Hc Hv. rewrite Ht, Hc in K.
    unfold JS.or_else in K. rewrite (bool_decide_eq_false_2 _ Hv) in K.
    assert (defaultParam (parseSignature s property) = defaultMarker v) as D.
    { unfold defaultParam. rewrite K. by rewrite (bool_decide_eq_false_2 _ Hv). }
    split; [done |]. rewrite (R _ K), D. split; [done |].
    destruct (propertySection_split (parseSignature s property) knownTypeMap
                (defaultMarker v)) as (pre & post & ->).
    apply Str.includes_spec. by exists pre, post.
  - intros Hn.
    assert (m_kind (parseSignature s property) = property "") as K'.
    { destruct Hn as [Hn|(t & Ht & Hc)]; [by rewrite Hn in K |].
      by rewrite Ht, Hc in K. }
    assert (defaultParam (parseSignature s property) = "") as D.
    { unfold defaultParam. by rewrite K'. }
    split; [done |]. by rewrite (R _ K'), D.
Qed.

Lemma default_marker_round_trip_witness :
  renderMember [] (parseSignature (propertySig "take" "number" [tag "default" "5"])
                     property)
  = cat ["### take"; JS.LF; JS.LF;
         "{{< member-info kind="; JS.DQ; "property"; JS.DQ;
         " type="; JS.DQ; "number"; JS.DQ; " default="; JS.DQ; "5"; JS.DQ;
         " >}}"; JS.LF; JS.LF; JS.LF; JS.LF]
  ∧ renderMember [] (parseSignature (propertySig "take" "number" []) property)
  = cat ["### take"; JS.LF; JS.LF;
         "{{< member-info kind="; JS.DQ; "property"; JS.DQ;
         " type="; JS.DQ; "number"; JS.DQ; " >}}"; JS.LF; JS.LF; JS.LF; JS.LF]
  ∧ renderMember []
      (parseSignature (propertySig "take" "number" [bareTag "default"]) property)
  = cat ["### take"; JS.LF; JS.LF;
         "{{< member-info kind="; JS.DQ; "property"; JS.DQ;
         " type="; JS.DQ; "number"; JS.DQ; " >}}"; JS.LF; JS.LF; JS.LF; JS.LF].
Proof.
  split; [|split].
  - refine (proj1 (proj2 (proj1 (proj2 (default_marker_round_trip
             (propertySig "take" "number" [tag "default" "5"]) []))
             (tag "default" "5") "5" eq_refl eq_refl _))).
    discriminate.
  - exact (proj2 (proj1 (proj2 (proj2 (default_marker_round_trip
             (propertySig "take" "number" []) []))) (or_introl eq_refl))).
  - refine (proj2 (proj1 (proj2 (proj2 (default_marker_round_trip
             (propertySig "take" "number" [bareTag "default"]) []))) _)).
    right. by exists (bareTag "default").
Defined.

(** C7 as stated fails on both sides.  A property with a default-value tag
    of text 5 followed by one of text 7 is rendered with the marker
    [default="7" ], and its section does not hold the marker of 5.  A
    property without any default-value tag whose type is the literal type
    ['default="5" '] is rendered with that text inside the type parameter,
    so that its section holds the text of the marker. *)
Lemma default_marker_not_as_claimed :
  renderMember []
    (parseSignature
       (propertySig "take" "number" [tag "default" "5"; tag "default" "7"])
       property)
  = cat ["### take"; JS.LF; JS.LF;
         "{{< member-info kind="; JS.DQ; "property"; JS.DQ;
         " type="; JS.DQ; "number"; JS.DQ; " default="; JS.DQ; "7"; JS.DQ;
         " >}}"; JS.LF; JS.LF; JS.LF; JS.LF]
  ∧ JS.includes (defaultMarker "5")
      (renderMember []
         (parseSignature
            (propertySig "take" "number" [tag "default" "5"; tag "default" "7"])
            property)) = false
  ∧ tagsNamed "default"
      (sig_jsDoc (propertySig "label" (cat ["'default="; JS.DQ; "5"; JS.DQ; " '"]) []))
    = []
  ∧ JS.includes (defaultMarker "5")
      (renderMember []
         (parseSignature
            (propertySig "label" (cat ["'default="; JS.DQ; "5"; JS.DQ; " '"]) [])
            property)) = true.
Proof. repeat split; reflexivity. Qed.

(** ** Hyperlinks in a rendered type *)

(** C3 fails on the code: [String.prototype.replace] with a string pattern
    replaces the first occurrence only.  With the title [ShippingMethod]
    registered at [shipping/shipping-method], a type text that names it
    twice has its first occurrence linked and its second left bare. *)
Theorem renderType_links_first_occurrence_only :
  renderType "(a: ShippingMethod, b: ShippingMethod) => number"
    [("ShippingMethod", "shipping/shipping-method")]
  = "(a: <a href='/docs/api//shipping/shipping-method/'>ShippingMethod</a>, b: ShippingMethod) =&#62; number".
Proof. reflexivity. Qed.

(** ** The file name of a declaration *)




Lemma split_go_cons (s cur : string) : ∃ p rest, JS.split_go cur s = p :: rest.
Proof.
  revert cur. induction s as [|c r IH]; intros cur; simpl; [by eexists _, _ |].
  destruct (_ && _); [by eexists _, _ | apply IH].
Qed.

Lemma join_split_go (s cur : string) :
  JS.join "-" (JS.split_go cur s) =
  cur +:+ hyphenate (negb (bool_decide (cur = ""))) s.
Proof.
  revert cur. induction s as [|c r IH]; intros cur; simpl.
  - by rewrite Str.app_nil_r.
  - destruct (JS.is_upper c && negb (bool_decide (cur = ""))) eqn:E.
    + destruct (split_go_cons r (String c "")) as (p & rest & Hp).
      pose proof (IH (String c "")) as H. rewrite Hp in *. simpl in *.
      by rewrite H.
    + rewrite IH, Str.app_assoc. simpl.
      rewrite bool_decide_eq_false_2; [done |].
      intros H%Str.app_eq_nil. by destruct H.
Qed.

(** The file name computed by the code is the slug of the specification *)
Lemma fileName_slug (title : string) :
  JS.toLowerCase (JS.join "-" (JS.split_upper title)) = slugOfTitle title.
Proof. unfold JS.split_upper, slugOfTitle. by rewrite join_split_go. Qed.




Lemma registerInfo_fst (st : Statement * string * N) (w : World) :
  (registerInfo st w).1 = parseDeclaration st.1.1 st.1.2 st.2.
Proof. unfold registerInfo. by destruct (parseDeclaration _ _ _). Qed.

(** What [statements.map] returns: the record of each statement, if any *)
Lemma mapRegister_results (statements : list (Statement * string * N)) (w : World) :
  (mapRegister statements w).1 =
  map (λ st, parseDeclaration st.1.1 st.1.2 st.2) statements.
Proof.
  revert w. induction statements as [|st sts IH]; intros w; [done |].
  cbn [mapRegister map].
  pose proof (registerInfo_fst st w) as H1.
  destruct (registerInfo st w) as [info w1].
  specialize (IH w1). destruct (mapRegister sts w1) as [infos w2].
  simpl in *. by rewrite H1, IH.
Qed.



(** ** The type map *)

Lemma Map_get_set (k k' v : string) (m : JS.Map) :
  JS.Map_get k (JS.Map_set k' v m) =
  if decide (k' = k) then Some v else JS.Map_get k m.
Proof.
  induction m as [|[a b] m IH]; simpl.
  - destruct (decide (k' = k)) as [->|E].
    + by rewrite bool_decide_eq_true_2.
    + by rewrite bool_decide_eq_false_2.
  - destruct (decide (a = k')) as [->|E1].
    + rewrite bool_decide_eq_true_2 by done. simpl.
      destruct (decide (k' = k)) as [->|E].
      * by rewrite bool_decide_eq_true_2.
      * by rewrite !bool_decide_eq_false_2.
    + rewrite (bool_decide_eq_false_2 _ E1). simpl. rewrite IH.
      destruct (decide (a = k)) as [->|E2].
      * rewrite bool_decide_eq_true_2 by done.
        destruct (decide (k' = k)); [congruence | done].
      * by rewrite (bool_decide_eq_false_2 _ E2).
Qed.

Lemma registerAll_keeps (infos : list DeclarationInfo) (m : JS.Map) (k : string) :
  is_Some (JS.Map_get k m) → is_Some (JS.Map_get k (registerAll infos m)).
Proof.
  revert m. induction infos as [|i infos IH]; intros m H; [done |].
  simpl. apply IH. rewrite Map_get_set. by case_decide.
Qed.

Lemma registerAll_has (infos : list DeclarationInfo) (m : JS.Map)
  (info : DeclarationInfo) :
  info ∈ infos → is_Some (JS.Map_get (title info) (registerAll infos m)).
Proof.
  revert m. induction infos as [|i infos IH]; intros m; [by intros ?%elem_of_nil |].
  intros [->|Hin]%elem_of_cons; simpl.
  - apply registerAll_keeps. rewrite Map_get_set. by rewrite decide_True.
  - by apply IH.
Qed.

(** The world after [statements.map]: only the type map and the history
    have changed, by one registration per record, in the order of the
    statements. *)
Lemma mapRegister_world (statements : list (Statement * string * N)) (w : World) :
  (mapRegister statements w).2 =
  {| typeMap := registerAll (omap id (mapRegister statements w).1) (typeMap w);
     files := files w;
     dirs := dirs w;
     clock := clock w;
     history := history w ++
       map (λ info, Registered (title info) (registeredPath info))
           (omap id (mapRegister statements w).1) |}.
Proof.
  revert w. induction statements as [|st sts IH]; intros w.
  - simpl. rewrite app_nil_r. by destruct w.
  - cbn [mapRegister]. unfold registerInfo.
    destruct (parseDeclaration st.1.1 st.1.2 st.2) as [info|].
    + specialize (IH (typeMap_set (title info)
                        (category info +:+ "/" +:+ fileName info) w)).
      destruct (mapRegister sts _) as [infos w2]. simpl in *.
      rewrite IH. by rewrite <- app_assoc.
    + specialize (IH w). by destruct (mapRegister sts w) as [infos w2].
Qed.

(** The statements of the files, in the order of the files *)
Lemma getStatementsWithSourceLocation_concat (sourceFiles : list SourceFile) :
  getStatementsWithSourceLocation sourceFiles =
  concat (map (λ sf, map (locate sf) (sf_statements sf)) sourceFiles).
Proof.
  unfold getStatementsWithSourceLocation.
  assert (∀ acc, foldl (λ st sf, st ++ map (locate sf) (sf_statements sf))
                   acc sourceFiles
                 = acc ++ concat (map (λ sf, map (locate sf) (sf_statements sf))
                                      sourceFiles)) as H.
  { induction sourceFiles as [|sf sfs IH]; intros acc; simpl.
    - by rewrite app_nil_r.
    - by rewrite IH, app_assoc. }
  apply (H []).
Qed.

(** ** One pass of the generator *)

Section Pass.

Variable path_join : string → string → string.
Variable now : nat → string.
Variable out : string.

Lemma existsSync_tick (p : string) (w : World) :
  existsSync p (tick w) = existsSync p w.
Proof. done. Qed.

Lemma existsSync_ensureDir (p : string) (info : DeclarationInfo) (w : World) :
  existsSync p w = true → existsSync p (ensureDir path_join out info w) = true.
Proof.
  unfold ensureDir. destruct (existsSync (categoryDir _ _ _) w); [done |].
  unfold existsSync, mkdirSync. simpl.
  rewrite !orb_true_iff, !bool_decide_eq_true.
  intros [H|H]; [by left | right]. apply elem_of_union. by right.
Qed.

Lemma files_ensureDir (info : DeclarationInfo) (w : World) :
  files (ensureDir path_join out info w) = files w.
Proof. unfold ensureDir. by destruct (existsSync _ w). Qed.

Lemma clock_ensureDir (info : DeclarationInfo) (w : World) :
  clock (ensureDir path_join out info w) = clock w.
Proof. unfold ensureDir. by destruct (existsSync _ w). Qed.

(** Reading the clock and noting an event do not touch the file system *)
Lemma ensureDir_inert (e : Event) (info : DeclarationInfo) (w : World) :
  ensureDir path_join out info (log e (tick w)) =
  log e (tick (ensureDir path_join out info w)).
Proof.
  unfold ensureDir.
  change (existsSync ?p (log e (tick w))) with (existsSync p w).
  by destruct (existsSync _ w).
Qed.

(** The fields of the world after one turn of the loop *)
Lemma emit_typeMap (w : World) (info : DeclarationInfo) :
  typeMap (emit path_join now out w info) = typeMap w.
Proof.
  unfold emit, renderStep, ensureIndex, ensureDir.
  repeat (case_match; simpl); done.
Qed.

Lemma emit_history (w : World) (info : DeclarationInfo) :
  history (emit path_join now out w info) =
  history w ++ [Rendered (title info) (typeMap w)].
Proof.
  unfold emit, renderStep, ensureIndex, ensureDir.
  repeat (case_match; simpl); done.
Qed.

Lemma emit_files (w : World) (info : DeclarationInfo) :
  files (emit path_join now out w info) =
  <[docFile path_join out info := render (now (clock w)) info (typeMap w)]>
    (if existsSync (indexFile path_join out info) (ensureDir path_join out info w)
     then files w
     else <[indexFile path_join out info :=
              indexFileContent (now (S (clock w))) info]> (files w)).
Proof.
  unfold emit, renderStep, ensureIndex.
  rewrite ensureDir_inert.
  change (existsSync ?p (log ?e (tick ?x))) with (existsSync p x).
  destruct (existsSync _ (ensureDir path_join out info w)); simpl;
    by rewrite ?files_ensureDir, ?clock_ensureDir.
Qed.

Lemma emit_clock (w : World) (info : DeclarationInfo) :
  clock (emit path_join now out w info) =
  if existsSync (indexFile path_join out info) (ensureDir path_join out info w)
  then S (clock w) else S (S (clock w)).
Proof.
  unfold emit, renderStep, ensureIndex.
  rewrite ensureDir_inert.
  change (existsSync ?p (log ?e (tick ?x))) with (existsSync p x).
  destruct (existsSync _ (ensureDir path_join out info w)); simpl;
    by rewrite clock_ensureDir.
Qed.

Lemma emit_dirs (w : World) (info : DeclarationInfo) :
  dirs (emit path_join now out w info) = dirs (ensureDir path_join out info w).
Proof.
  unfold emit, renderStep, ensureIndex. rewrite ensureDir_inert.
  by destruct (existsSync _ (log _ _)).
Qed.

(** What exists keeps existing *)
Lemma emit_exists (w : World) (info : DeclarationInfo) (p : string) :
  existsSync p w = true → existsSync p (emit path_join now out w info) = true.
Proof.
  intros H. apply (existsSync_ensureDir _ info) in H.
  unfold existsSync in *. rewrite emit_files, emit_dirs.
  rewrite orb_true_iff, !bool_decide_eq_true in *.
  destruct H as [H|H]; [left | by right].
  rewrite files_ensureDir in H.
  rewrite lookup_insert. case_decide; [by eexists |].
  case_match; [done |]. rewrite lookup_insert. by case_decide.
Qed.

(** The document of a record is written whatever was there *)
Lemma emit_doc (w : World) (info : DeclarationInfo) :
  files (emit path_join now out w info) !! docFile path_join out info =
  Some (render (now (clock w)) info (typeMap w)).
Proof. by rewrite emit_files, lookup_insert_eq. Qed.

(** An existing path other than the document written is left as it is *)
Lemma emit_other (w : World) (info : DeclarationInfo) (p : string) :
  existsSync p w = true → docFile path_join out info ≠ p →
  files (emit path_join now out w info) !! p = files w !! p.
Proof.
  intros H Hne. rewrite emit_files, lookup_insert_ne by done.
  destruct (existsSync _ (ensureDir path_join out info w)) eqn:E; [done |].
  rewrite lookup_insert_ne; [done |]. intros Heq. subst p.
  apply (existsSync_ensureDir _ info) in H. congruence.
Qed.

Lemma foldl_emit_other (infos : list DeclarationInfo) (w : World) (p : string) :
  existsSync p w = true →
  (∀ i, i ∈ infos → docFile path_join out i ≠ p) →
  files (foldl (emit path_join now out) w infos) !! p = files w !! p.
Proof.
  revert w. induction infos as [|i infos IH]; intros w H Hne; [done |].
  simpl. rewrite IH.
  - apply emit_other; [done |]. apply Hne. by left.
  - by apply emit_exists.
  - intros j Hj. apply Hne. by right.
Qed.

Lemma foldl_emit_typeMap (infos : list DeclarationInfo) (w : World) :
  typeMap (foldl (emit path_join now out) w infos) = typeMap w.
Proof.
  revert w. induction infos as [|i infos IH]; intros w; [done |].
  simpl. by rewrite IH, emit_typeMap.
Qed.

Lemma foldl_emit_history (infos : list DeclarationInfo) (w : World) :
  history (foldl (emit path_join now out) w infos) =
  history w ++ map (λ info, Rendered (title info) (typeMap w)) infos.
Proof.
  revert w. induction infos as [|i infos IH]; intros w; simpl.
  - by rewrite app_nil_r.
  - by rewrite IH, emit_history, emit_typeMap, <- app_assoc.
Qed.

Lemma foldl_emit_exists (infos : list DeclarationInfo) (w : World) (p : string) :
  existsSync p w = true →
  existsSync p (foldl (emit path_join now out) w infos) = true.
Proof.
  revert w. induction infos as [|i infos IH]; intros w H; [done |].
  simpl. by apply IH, emit_exists.
Qed.

(** A regular file stays one *)
Lemma emit_keeps_file (w : World) (info : DeclarationInfo) (p : string) :
  is_Some (files w !! p) → is_Some (files (emit path_join now out w info) !! p).
Proof.
  intros H. rewrite emit_files, lookup_insert. case_decide; [by eexists |].
  case_match; [done |]. rewrite lookup_insert. by case_decide.
Qed.

Lemma foldl_emit_keeps_file (infos : list DeclarationInfo) (w : World) (p : string) :
  is_Some (files w !! p) →
  is_Some (files (foldl (emit path_join now out) w infos) !! p).
Proof.
  revert w. induction infos as [|i infos IH]; intros w H; [done |].
  simpl. by apply IH, emit_keeps_file.
Qed.


End Pass.

Lemma omap_id_map {A B} (f : A → option B) (l : list A) :
  omap id (map f l) = omap f l.
Proof.
  induction l as [|x l IH]; [done |].
  change (omap id (map f (x :: l)))
    with (match f x with Some y => y :: omap id (map f l) | None => omap id (map f l) end).
  change (omap f (x :: l))
    with (match f x with Some y => y :: omap f l | None => omap f l end).
  by rewrite IH.
Qed.

Section PassResult.

Variable path_join : string → string → string.
Variable now : nat → string.

Lemma generateDocs_eq (sourceFiles : list SourceFile) (out : string) (w : World) :
  generateDocs path_join now sourceFiles out w =
  let infos := declarationInfos sourceFiles in
  let w2 := foldl (emit path_join now out) (registered infos w) infos in
  match infos with
  | [] => w2
  | _ => tick w2
  end.
Proof.
  unfold generateDocs, declarationInfos.
  pose proof (mapRegister_results
                (getStatementsWithSourceLocation sourceFiles) (tick w)) as R.
  pose proof (mapRegister_world
                (getStatementsWithSourceLocation sourceFiles) (tick w)) as W.
  destruct (mapRegister _ (tick w)) as [results w1]. simpl in R, W.
  subst results. rewrite omap_id_map in W. rewrite omap_id_map. by subst w1.
Qed.

Lemma generateDocs_typeMap (sourceFiles : list SourceFile) (out : string)
  (w : World) :
  typeMap (generateDocs path_join now sourceFiles out w) =
  registerAll (declarationInfos sourceFiles) (typeMap w).
Proof.
  rewrite generateDocs_eq. cbv zeta.
  generalize (declarationInfos sourceFiles). intros infos.
  transitivity (typeMap (foldl (emit path_join now out) (registered infos w) infos));
    [by destruct infos |].
  by rewrite foldl_emit_typeMap.
Qed.

Lemma generateDocs_files (sourceFiles : list SourceFile) (out : string)
  (w : World) :
  files (generateDocs path_join now sourceFiles out w) =
  files (foldl (emit path_join now out)
           (registered (declarationInfos sourceFiles) w)
           (declarationInfos sourceFiles)).
Proof.
  rewrite generateDocs_eq. cbv zeta. by destruct (declarationInfos sourceFiles).
Qed.

Lemma generateDocs_history (sourceFiles : list SourceFile) (out : string)
  (w : World) :
  history (generateDocs path_join now sourceFiles out w) =
  history (foldl (emit path_join now out)
             (registered (declarationInfos sourceFiles) w)
             (declarationInfos sourceFiles)).
Proof.
  rewrite generateDocs_eq. cbv zeta. by destruct (declarationInfos sourceFiles).
Qed.

(** C6. In a pass over any list of source files, the titles of all the
    records of the pass are registered in the type map before the first
    record is rendered: the history of the pass consists of the
    registrations followed by the renderings, and every rendering receives
    a type map that knows the title of every record of the pass. *)
Theorem registered_before_rendered (sourceFiles : list SourceFile) (out : string)
  (w : World) :
  ∃ known,
    history (generateDocs path_join now sourceFiles out w) =
      history w
      ++ map (λ info, Registered (title info) (registeredPath info))
             (declarationInfos sourceFiles)
      ++ map (λ info, Rendered (title info) known) (declarationInfos sourceFiles)
    ∧ known = typeMap (generateDocs path_join now sourceFiles out w)
    ∧ ∀ info, info ∈ declarationInfos sourceFiles →
        is_Some (JS.Map_get (title info) known).
Proof.
  exists (registerAll (declarationInfos sourceFiles) (typeMap w)).
  split; [|split].
  - rewrite generateDocs_history, foldl_emit_history. simpl.
    by rewrite <- app_assoc.
  - by rewrite generateDocs_typeMap.
  - intros info Hin. by apply registerAll_has.
Qed.

Lemma located_statement (sourceFiles : list SourceFile)
  (x : Statement * string * N) :
  x ∈ getStatementsWithSourceLocation sourceFiles ↔
  ∃ sf st, sf ∈ sourceFiles ∧ st ∈ sf_statements sf ∧ x = locate sf st.
Proof.
  rewrite getStatementsWithSourceLocation_concat, list_elem_of_In, in_concat.
  split.
  - intros (sts & (sf & <- & Hsf)%in_map_iff & (st & <- & Hst)%in_map_iff).
    exists sf, st. by rewrite !list_elem_of_In.
  - intros (sf & st & Hsf & Hst & ->).
    apply list_elem_of_In in Hsf. apply list_elem_of_In in Hst.
    exists (map (locate sf) (sf_statements sf)). split.
    + apply in_map_iff. by exists sf.
    + by apply in_map.
Qed.



End PassResult.

Lemma registered_before_rendered_witness :
  history (generateDocs slash_join iso [exampleFile] "/out" (start ∅ ∅)) =
  [Registered "Foo" "common/foo"; Rendered "Foo" [("Foo", "common/foo")]].
Proof.
  destruct (registered_before_rendered slash_join iso [exampleFile] "/out"
              (start ∅ ∅)) as (known & Hh & Hk & _).
  rewrite Hh, Hk. reflexivity.
Defined.


(** ** Deleting the generated documents *)

Section Delete.

Variable inside : string → string → bool.
Variable outputPath : string.

Lemma klawSync_elem (w : World) (p : string) :
  p ∈ klawSync inside outputPath w ↔
  inside outputPath p = true ∧ is_Some (files w !! p).
Proof.
  unfold klawSync. rewrite list_elem_of_filter, list_elem_of_In, in_map_iff.
  split.
  - intros (Hin & [q c] & <- & Hq). split; [done |]. exists c.
    by apply elem_of_map_to_list, list_elem_of_In.
  - intros (Hin & c & Hc). split; [done |]. exists (p, c). split; [done |].
    by apply list_elem_of_In, elem_of_map_to_list.
Qed.

Lemma klawSync_NoDup (w : World) : NoDup (klawSync inside outputPath w).
Proof. apply NoDup_filter, (NoDup_fst_map_to_list (files w)). Qed.

Lemma deleteLoop_spec (l : list string) (n : nat) (w : World) :
  NoDup l → (∀ p, p ∈ l → is_Some (files w !! p)) →
  ∃ w' n',
    deleteLoop l n w = Some (w', n')
    ∧ typeMap w' = typeMap w ∧ dirs w' = dirs w
    ∧ clock w' = clock w ∧ history w' = history w
    ∧ ∀ p, files w' !! p = files w !! p ≫= survives l p.
Proof.
  revert n w. induction l as [|file rest IH]; intros n w Hnd Hall.
  - exists w, n. repeat split; try done.
    intros p. unfold survives. by destruct (files w !! p).
  - apply NoDup_cons in Hnd as [Hnin Hnd].
    destruct (Hall file) as [content Hc]; [by left |].
    simpl. unfold readFileSync. rewrite Hc.
    destruct (isGenerated content) eqn:G.
    + destruct (IH (S n) (unlinkSync file w) Hnd) as (w' & n' & -> & ? & ? & ? & ? & Hf).
      { intros p Hp. simpl. rewrite lookup_delete_ne by (by intros ->).
        apply Hall. by right. }
      exists w', n'. repeat split; try done.
      intros p. rewrite Hf. simpl. unfold survives.
      destruct (decide (p = file)) as [->|Hne].
      * rewrite lookup_delete_eq, Hc. simpl.
        rewrite bool_decide_eq_true_2 by left. by rewrite G.
      * rewrite lookup_delete_ne by done.
        destruct (files w !! p) as [c|]; [simpl | done].
        rewrite (bool_decide_ext (p ∈ rest) (p ∈ file :: rest)); [done |].
        rewrite elem_of_cons. split; [by right | by intros [?|?]].
    + destruct (IH n w Hnd) as (w' & n' & -> & ? & ? & ? & ? & Hf).
      { intros p Hp. apply Hall. by right. }
      exists w', n'. repeat split; try done.
      intros p. rewrite Hf. unfold survives.
      destruct (decide (p = file)) as [->|Hne].
      * rewrite Hc. simpl. by rewrite G, !andb_false_r.
      * destruct (files w !! p) as [c|]; [simpl | done].
        rewrite (bool_decide_ext (p ∈ rest) (p ∈ file :: rest)); [done |].
        rewrite elem_of_cons. split; [by right | by intros [?|?]].
Qed.

(** The pass never fails to read a file it lists, and what it leaves of the
    files is decided file by file. *)
Lemma deleteGeneratedDocs_result (w : World) :
  ∃ w' deleteCount,
    deleteGeneratedDocs inside outputPath w = Some (w', deleteCount)
    ∧ (∀ p, files w' !! p =
            match files w !! p with
            | Some content =>
                if inside outputPath p && isGenerated content
                then None else Some content
            | None => None
            end)
    ∧ dirs w' = dirs w ∧ typeMap w' = typeMap w.
Proof.
  destruct (deleteLoop_spec (klawSync inside outputPath w) 0 w)
    as (w' & n' & Hd & ? & ? & _ & _ & Hf).
  { apply klawSync_NoDup. }
  { intros p Hp. by apply klawSync_elem in Hp as [_ ?]. }
  exists w', n'. repeat split; try done.
  intros p. rewrite Hf. destruct (files w !! p) as [c|] eqn:E; [simpl | done].
  unfold survives.
  rewrite (bool_decide_ext _ _ (klawSync_elem w p)), E.
  destruct (inside outputPath p).
  - rewrite bool_decide_eq_true_2; [done |]. split; [done | by eexists].
  - rewrite bool_decide_eq_false_2; [done |]. by intros [? _].
Qed.

(** C5. The pass that runs before the generation returns, and it deletes
    exactly the files of the output tree whose content matches the generated
    marker: such a file is gone, every file whose content does not contain
    the marker lines is left with its content, as is every file outside the
    output tree, and no file appears. *)
Theorem deleteGeneratedDocs_deletes_marked (w : World) :
  ∃ w' deleteCount,
    deleteGeneratedDocs inside outputPath w = Some (w', deleteCount)
    ∧ (∀ p content, files w !! p = Some content →
         inside outputPath p = true → isGenerated content = true →
         files w' !! p = None)
    ∧ (∀ p content, files w !! p = Some content →
         (¬ ∃ pre post, content = pre +:+ marker +:+ post) →
         files w' !! p = Some content)
    ∧ (∀ p content, files w !! p = Some content →
         inside outputPath p = false → files w' !! p = Some content)
    ∧ (∀ p, files w !! p = None → files w' !! p = None)
    ∧ dirs w' = dirs w.
Proof.
  destruct (deleteGeneratedDocs_result w) as (w' & n & Hd & Hf & Hdirs & _).
  exists w', n. split; [done |].
  split; [|split; [|split; [|split]]]; try done.
  - intros p c Hc Hin Hg. by rewrite Hf, Hc, Hin, Hg.
  - intros p c Hc Hno. rewrite Hf, Hc.
    destruct (isGenerated c) eqn:G; [|by rewrite andb_false_r].
    apply isGenerated_spec in G. by destruct Hno.
  - intros p c Hc Hout. by rewrite Hf, Hc, Hout.
  - intros p Hc. by rewrite Hf, Hc.
Qed.

End Delete.

(** The stale-file scenario: of a generated document and a hand-written one
    in the output tree, the pass deletes the former only; a file outside the
    tree stays even with the marker. *)
Lemma deleteGeneratedDocs_deletes_marked_witness :
  ∃ w' deleteCount,
    deleteGeneratedDocs below "/out" (start staleTree ∅) = Some (w', deleteCount)
    ∧ files w' !! "/out/common/foo.md" = None
    ∧ files w' !! "/out/common/notes.md" = Some "# Notes, generated: false"
    ∧ files w' !! "/srv/readme.md" = Some marker.
Proof.
  destruct (deleteGeneratedDocs_deletes_marked below "/out" (start staleTree ∅))
    as (w' & n & Hd & H1 & H2 & H3 & _).
  exists w', n. split; [exact Hd |]. split; [|split].
  - exact (H1 "/out/common/foo.md" _ eq_refl eq_refl eq_refl).
  - apply (H2 "/out/common/notes.md" _ eq_refl).
    intros H. apply isGenerated_spec in H. discriminate H.
  - exact (H3 "/srv/readme.md" _ eq_refl eq_refl).
Defined.

(** ** Two runs of the script *)

Lemma generateFrontMatter_date (date title : string) (weight : JS.number)
  (showToc : bool) :
  generateFrontMatter date title weight showToc =
  frontMatterHead title weight +:+ "date: " +:+ date +:+ JS.LF
    +:+ frontMatterTail showToc.
Proof.
  unfold generateFrontMatter, frontMatterHead, frontMatterTail.
  change ("date: " +:+ date +:+ JS.LF +:+ cat ?l)
    with (cat ("date: " :: date :: JS.LF :: l)).
  by rewrite <- cat_app.
Qed.

Lemma render_date (date : string) (info : DeclarationInfo) (typeMap : JS.Map) :
  render date info typeMap =
  frontMatterHead (title info) (weight info) +:+ "date: " +:+ date +:+ JS.LF
    +:+ frontMatterTail true +:+ body_of info typeMap.
Proof.
  transitivity (generateFrontMatter date (title info) (weight info) true
                  +:+ body_of info typeMap).
  - unfold render, body_of. by destruct (kind info).
  - by rewrite generateFrontMatter_date, !Str.app_assoc.
Qed.

Lemma indexFileContent_date (date : string) (info : DeclarationInfo) :
  indexFileContent date info =
  frontMatterHead (category info) (JS.Num 10) +:+ "date: " +:+ date +:+ JS.LF
    +:+ frontMatterTail false +:+ cat [JS.LF; JS.LF; "# "; category info].
Proof.
  unfold indexFileContent. by rewrite generateFrontMatter_date, !Str.app_assoc.
Qed.

Section TwoRuns.

Variable path_join : string → string → string.
Variable inside : string → string → bool.
Variable outputPath : string.
(** The clocks of the two runs *)
Variables now1 now2 : nat → string.

Lemma sameTree_refl (f : gmap string string) : sameTree now1 now2 f f.
Proof. intros p. destruct (f !! p); constructor. by left. Qed.

Lemma sameTree_insert (f1 f2 : gmap string string) (p d1 d2 : string) :
  sameTree now1 now2 f1 f2 → sameButDate now1 now2 d1 d2 → sameTree now1 now2 (<[p:=d1]> f1) (<[p:=d2]> f2).
Proof.
  intros Hf Hd q. rewrite !lookup_insert. case_decide; [by constructor | apply Hf].
Qed.

Lemma sameTree_is_Some (f1 f2 : gmap string string) (p : string) :
  sameTree now1 now2 f1 f2 →
  bool_decide (is_Some (f1 !! p)) = bool_decide (is_Some (f2 !! p)).
Proof.
  intros Hf. apply bool_decide_ext. specialize (Hf p).
  destruct Hf; split; intros [? ?]; by eauto.
Qed.

Lemma alike_existsSync (w1 w2 : World) (p : string) :
  alike now1 now2 w1 w2 → existsSync p w1 = existsSync p w2.
Proof.
  intros (_ & Hd & _ & _ & Hf). unfold existsSync.
  by rewrite (sameTree_is_Some _ _ p Hf), Hd.
Qed.

Lemma alike_ensureDir (w1 w2 : World) (out : string) (info : DeclarationInfo) :
  alike now1 now2 w1 w2 →
  alike now1 now2 (ensureDir path_join out info w1) (ensureDir path_join out info w2).
Proof.
  intros H. unfold ensureDir. rewrite (alike_existsSync w1 w2 _ H).
  destruct (existsSync _ w2); [done |].
  destruct H as (? & Hd & ? & ? & ?). repeat split; try done.
  simpl. by rewrite Hd.
Qed.

Lemma render_sameButDate (n : nat) (info : DeclarationInfo) (typeMap : JS.Map) :
  sameButDate now1 now2 (render (now1 n) info typeMap) (render (now2 n) info typeMap).
Proof.
  right. exists (frontMatterHead (title info) (weight info)),
                (frontMatterTail true +:+ body_of info typeMap), n.
  by rewrite !render_date.
Qed.

Lemma index_sameButDate (n : nat) (info : DeclarationInfo) :
  sameButDate now1 now2 (indexFileContent (now1 n) info) (indexFileContent (now2 n) info).
Proof.
  right. exists (frontMatterHead (category info) (JS.Num 10)),
                (frontMatterTail false +:+ cat [JS.LF; JS.LF; "# "; category info]),
                n.
  by rewrite !indexFileContent_date.
Qed.

Lemma alike_emit (w1 w2 : World) (out : string) (info : DeclarationInfo) :
  alike now1 now2 w1 w2 →
  alike now1 now2 (emit path_join now1 out w1 info) (emit path_join now2 out w2 info).
Proof.
  intros H. pose proof (alike_ensureDir w1 w2 out info H) as He.
  pose proof (alike_existsSync _ _ (indexFile path_join out info) He) as Hx.
  destruct H as (Ht & Hd & Hc & Hh & Hf).
  split; [|split; [|split; [|split]]].
  - by rewrite !emit_typeMap.
  - rewrite !emit_dirs. by destruct He as (_ & ? & _).
  - by rewrite !emit_clock, Hx, Hc.
  - by rewrite !emit_history, Hh, Ht.
  - rewrite !emit_files, Hx, Hc, Ht.
    apply sameTree_insert; [|apply render_sameButDate].
    destruct (existsSync (indexFile path_join out info)
                (ensureDir path_join out info w2)); [done |].
    apply sameTree_insert; [done | apply index_sameButDate].
Qed.

Lemma alike_foldl_emit (infos : list DeclarationInfo) (w1 w2 : World)
  (out : string) :
  alike now1 now2 w1 w2 →
  alike now1 now2 (foldl (emit path_join now1 out) w1 infos)
        (foldl (emit path_join now2 out) w2 infos).
Proof.
  revert w1 w2. induction infos as [|i infos IH]; intros w1 w2 H; [done |].
  simpl. by apply IH, alike_emit.
Qed.

Lemma alike_generateDocs (sourceFiles : list SourceFile) (out : string)
  (w : World) :
  alike now1 now2 (generateDocs path_join now1 sourceFiles out w)
        (generateDocs path_join now2 sourceFiles out w).
Proof.
  rewrite !generateDocs_eq. cbv zeta.
  pose proof (alike_foldl_emit (declarationInfos sourceFiles)
                (registered (declarationInfos sourceFiles) w)
                (registered (declarationInfos sourceFiles) w) out) as H.
  destruct H as (? & ? & Hc & ? & ?).
  { repeat split; try done. apply sameTree_refl. }
  destruct (declarationInfos sourceFiles); repeat split; try done.
  unfold tick. cbn [clock]. by rewrite Hc.
Qed.

(** C8. Two runs of the script over the same source files, from the same
    output tree, with whatever clocks, both return, and they leave the same
    directories and the same files; the contents of a file in the two
    results are equal but for the date that the front matter embeds. *)
Theorem runs_differ_in_dates_only (sourceFiles : list SourceFile)
  (files0 : gmap string string) (dirs0 : gset string) :
  ∃ w1 w2,
    main path_join inside outputPath now1 sourceFiles (start files0 dirs0) = Some w1
    ∧ main path_join inside outputPath now2 sourceFiles (start files0 dirs0) = Some w2
    ∧ dirs w1 = dirs w2
    ∧ dom (files w1) = dom (files w2)
    ∧ ∀ p, option_Forall2 (sameButDate now1 now2)
             (files w1 !! p) (files w2 !! p).
Proof.
  unfold main.
  destruct (deleteGeneratedDocs_result inside outputPath (start files0 dirs0))
    as (w & n & -> & _).
  pose proof (alike_generateDocs sourceFiles outputPath w) as (_ & Hd & _ & _ & Hf).
  eexists _, _. repeat split; try done.
  apply set_eq. intros p. rewrite !elem_of_dom.
  specialize (Hf p). destruct Hf; split; intros [? ?]; by eauto.
Qed.

End TwoRuns.

Lemma runs_differ_in_dates_only_witness :
  ∃ w1 w2,
    main slash_join below "/out" iso [exampleFile] (start staleTree ∅) = Some w1
    ∧ main slash_join below "/out" (λ n, iso (n + 4)) [exampleFile]
        (start staleTree ∅) = Some w2
    ∧ option_Forall2 (sameButDate iso (λ n, iso (n + 4)))
        (files w1 !! "/out/common/foo.md") (files w2 !! "/out/common/foo.md").
Proof.
  destruct (runs_differ_in_dates_only slash_join below "/out" iso
              (λ n, iso (n + 4)) [exampleFile] staleTree ∅)
    as (w1 & w2 & H1 & H2 & _ & _ & H).
  exists w1, w2. exact (conj H1 (conj H2 (H _))).
Defined.

(** * Further properties of the generator *)

(** ** Descriptions *)

Lemma cat_map_nil {A} (f : A → string) (l : list A) :
  (∀ x, x ∈ l → f x = "") → cat (map f l) = "".
Proof.
  induction l as [|x l IH]; intros H; [done |].
  simpl. rewrite (H x) by left. apply IH. intros y Hy. apply H. by right.
Qed.

Lemma declaration_description_pieces (tags : list JSDocTag) :
  parseTags tags
    [("description", λ tag description, JS.append_any description (comment tag))]
    ""
  = cat (map declarationPiece tags).
Proof.
  induction tags as [|t tags IH] using rev_ind; [done |].
  rewrite parseTags_snoc, map_app, cat_app, <- IH. simpl map.
  rewrite cat_singleton. unfold declarationPiece, tagged. simpl.
  destruct (decide (tagName t = "description")) as [E|E].
  - by rewrite (bool_decide_eq_true_2 _ E), (bool_decide_eq_true_2 _ (eq_sym E)).
  - rewrite (bool_decide_eq_false_2 _ E), bool_decide_eq_false_2 by congruence.
    by rewrite Str.app_nil_r.
Qed.

Lemma member_description_pieces (tags : list JSDocTag) :
  v_description (parseTags tags memberMatcher
                   {| v_description := ""; v_defaultValue := "" |})
  = cat (map memberPiece tags).
Proof.
  induction tags as [|t tags IH] using rev_ind; [done |].
  rewrite parseTags_snoc, map_app, cat_app, <- IH. simpl map.
  rewrite cat_singleton. unfold memberPiece, tagged. simpl.
  destruct (decide (tagName t = "description")) as [E1|E1].
  { by rewrite (bool_decide_eq_true_2 _ E1), (bool_decide_eq_true_2 _ (eq_sym E1)). }
  rewrite (bool_decide_eq_false_2 _ E1),
    (bool_decide_eq_false_2 ("description" = tagName t)) by congruence.
  destruct (decide (tagName t = "example")) as [E2|E2].
  { by rewrite (bool_decide_eq_true_2 _ E2), (bool_decide_eq_true_2 _ (eq_sym E2)). }
  rewrite (bool_decide_eq_false_2 _ E2),
    (bool_decide_eq_false_2 ("example" = tagName t)) by congruence.
  case_bool_decide; simpl; by rewrite Str.app_nil_r.
Qed.

(** ** Example code *)

Lemma example_prefix_other (c : ascii) (r : string) :
  c ≠ "010"%char → JS.example_prefix (String c r) = None.
Proof.
  intros H. destruct c as [[] [] [] [] [] [] [] []]; try done.
Qed.

Lemma strip_go_plain (l rest : string) :
  noLF l = true →
  JS.strip_go 0 (l +:+ rest) = l +:+ JS.strip_go 0 rest.
Proof.
  induction l as [|c l IH]; intros H; [done |].
  simpl in H. apply andb_true_iff in H as [Hc Hl].
  apply negb_true_iff, bool_decide_eq_false in Hc.
  change (String c l +:+ rest) with (String c (l +:+ rest)).
  cbn [JS.strip_go]. rewrite (example_prefix_other c _ Hc).
  simpl. by rewrite IH.
Qed.

Lemma strip_go_continuation (rest : string) :
  JS.strip_go 0 (continuation +:+ rest) = JS.strip_go 0 rest.
Proof.
  change (continuation +:+ rest)
    with (String "010" (String " " (String "*" (String " " rest)))).
  cbn [JS.strip_go].
  assert (JS.example_prefix
            (String "010" (String " " (String "*" (String " " rest)))) = Some 4%nat)
    as ->.
  { unfold JS.example_prefix. simpl. f_equal. lia. }
  reflexivity.
Qed.

Lemma strip_plain (l : string) :
  noLF l = true → JS.strip_comment_stars l = l.
Proof.
  intros H. unfold JS.strip_comment_stars.
  rewrite <- (Str.app_nil_r l) at 1. rewrite strip_go_plain by done.
  apply Str.app_nil_r.
Qed.

Lemma strip_lines (line : string) (lines : list string) :
  Forall (λ l, noLF l = true) (line :: lines) →
  JS.strip_comment_stars (JS.join continuation (line :: lines))
  = cat (line :: lines).
Proof.
  unfold JS.strip_comment_stars. revert line.
  induction lines as [|l lines IH]; intros line H.
  - apply Forall_cons in H as [H _].
    change (JS.join continuation [line]) with line.
    rewrite (cat_singleton line). by apply strip_plain.
  - apply Forall_cons in H as [H Hl].
    change (JS.join continuation (line :: l :: lines))
      with (line +:+ continuation +:+ JS.join continuation (l :: lines)).
    rewrite strip_go_plain by done. rewrite strip_go_continuation, IH by done.
    reflexivity.
Qed.

(** X3. [formatExampleCode] puts two line feeds in front of the example.  An
    example without a line feed follows them as it is; in an example whose
    lines are joined by the continuation of a JSDoc block (line feed, space,
    asterisk, space) the continuations are removed with their line feeds, so
    that the lines follow each other without a break; and a missing example
    gives the two line feeds alone. *)
Theorem formatExampleCode_joins_lines (line : string) (lines : list string) :
  Forall (λ l, noLF l = true) (line :: lines) →
  formatExampleCode (Some line) = JS.LF +:+ JS.LF +:+ line
  ∧ formatExampleCode (Some (JS.join continuation (line :: lines)))
    = JS.LF +:+ JS.LF +:+ cat (line :: lines)
  ∧ formatExampleCode None = JS.LF +:+ JS.LF.
Proof.
  intros H. unfold formatExampleCode.
  change (default "" (Some ?x)) with x. split; [|split].
  - apply Forall_cons in H as [H _]. by rewrite strip_plain.
  - by rewrite strip_lines.
  - reflexivity.
Qed.

Lemma formatExampleCode_joins_lines_witness :
  formatExampleCode (Some "const a = 1;") = JS.LF +:+ JS.LF +:+ "const a = 1;"
  ∧ formatExampleCode
      (Some ("const a = 1;" +:+ JS.LF +:+ " * const b = 2;"))
    = JS.LF +:+ JS.LF +:+ "const a = 1;const b = 2;".
Proof.
  destruct (formatExampleCode_joins_lines "const a = 1;" ["const b = 2;"])
    as (H1 & H2 & _).
  { repeat constructor. }
  exact (conj H1 H2).
Defined.

(** ** Source locations *)

Lemma substring_from_app (pre s : string) :
  JS.substring_from (String.length pre) (pre +:+ s) = s.
Proof. induction pre as [|c pre IH]; simpl; [by destruct s | done]. Qed.

(** The occurrence that [cut] finds is the first one *)
Lemma cut_first (pat s pre post : string) :
  JS.cut pat s = Some (pre, post) →
  ∀ pre' post', s = pre' +:+ pat +:+ post' →
    (String.length pre <= String.length pre')%nat.
Proof.
  revert pre. induction s as [|c s IH]; intros pre; simpl.
  - destruct (JS.strip_prefix pat "") eqn:E; [|done].
    intros [= <- <-] pre' post' _. simpl. lia.
  - destruct (JS.strip_prefix pat (String c s)) eqn:E.
    + intros [= <- <-] pre' post' _. simpl. lia.
    + destruct (JS.cut pat s) as [[pre0 post0]|] eqn:C; [|done].
      intros [= <- <-] pre' post' Hs.
      destruct pre' as [|c' pre'].
      * simpl in Hs. rewrite Hs, Str.strip_prefix_app in E. done.
      * simpl in Hs. injection Hs as -> ->. simpl.
        apply le_n_S. by eapply IH.
Qed.

Lemma cut_None (pat s : string) :
  JS.cut pat s = None → ∀ pre post, s ≠ pre +:+ pat +:+ post.
Proof.
  intros H pre post ->. destruct (Str.cut_is_Some pat pre post) as [x Hx].
  congruence.
Qed.

Lemma app_same_length (a b x y : string) :
  a +:+ x = b +:+ y → String.length a = String.length b → a = b ∧ x = y.
Proof.
  revert b. induction a as [|c a IH]; intros [|c' b]; simpl; try done.
  intros [= -> H] [= L]. destruct (IH b H L) as [-> ->]. done.
Qed.

(** X4. [getStatementsWithSourceLocation] gives the statements of the files
    in order, each with its line counted from 1 and with the path of its file
    from the first [/server/src] on: what stands in front of the first
    occurrence of that text is cut off, and a path that does not contain it
    is kept whole. *)
Theorem statements_with_source_location (sourceFiles : list SourceFile) :
  getStatementsWithSourceLocation sourceFiles =
    concat (map (λ sf, map (locate sf) (sf_statements sf)) sourceFiles)
  ∧ ∀ sf st,
      (locate sf st).1.1 = st.2
      ∧ (locate sf st).2 = (st.1 + 1)%N
      ∧ (∀ pre post,
           sf_fileName sf = pre +:+ "/server/src" +:+ post →
           (∀ pre' post', sf_fileName sf = pre' +:+ "/server/src" +:+ post' →
              (String.length pre <= String.length pre')%nat) →
           (locate sf st).1.2 = "/server/src" +:+ post)
      ∧ ((∀ pre post, sf_fileName sf ≠ pre +:+ "/server/src" +:+ post) →
           (locate sf st).1.2 = sf_fileName sf).
Proof.
  split; [apply getStatementsWithSourceLocation_concat |].
  intros sf st. unfold locate, JS.indexOf. cbv zeta. cbn [fst snd].
  split; [done |]. split; [done |].
  destruct (JS.cut "/server/src" (sf_fileName sf)) as [[pre0 post0]|] eqn:C;
    cbn [fmap option_fmap option_map fst snd].
  - split.
    + intros pre post Hs Hmin.
      pose proof (Str.cut_Some _ _ _ _ C) as E.
      pose proof (cut_first _ _ _ _ C pre post Hs) as L1.
      pose proof (Hmin pre0 post0 E) as L2.
      assert (pre0 = pre ∧ "/server/src" +:+ post0 = "/server/src" +:+ post)
        as [-> <-].
      { apply app_same_length; [congruence | lia]. }
      rewrite E. apply substring_from_app.
    + intros H. destruct (H pre0 post0). by apply Str.cut_Some.
  - split; [|done]. intros pre post Hs. by destruct (cut_None _ _ C pre post).
Qed.

Lemma statements_with_source_location_witness :
  (locate {| sf_fileName := "/w/server/src/a.ts"; sf_statements := [] |}
     (7%N, OtherStatement)).1.2
  = "/server/src/a.ts"
  ∧ (locate {| sf_fileName := "/tmp/scratch.ts"; sf_statements := [] |}
       (7%N, OtherStatement)).1.2
    = "/tmp/scratch.ts".
Proof.
  split.
  - apply (proj2 (statements_with_source_location [])
             {| sf_fileName := "/w/server/src/a.ts"; sf_statements := [] |}
             (7%N, OtherStatement) : _ ∧ _ ∧ _ ∧ _) with (pre := "/w").
    + reflexivity.
    + intros [|c1 [|c2 pre']] post' H; simpl in *; [discriminate H | | lia].
      injection H as <- H. discriminate H.
  - apply (proj2 (statements_with_source_location [])
             {| sf_fileName := "/tmp/scratch.ts"; sf_statements := [] |}
             (7%N, OtherStatement)).
    intros pre post H. apply (f_equal (JS.includes "/server/src")) in H.
    rewrite (proj2 (Str.includes_spec "/server/src" (pre +:+ "/server/src" +:+ post)))
      in H by eauto.
    discriminate H.
Defined.

(** ** Members *)

Lemma parseMembers_app (l1 l2 : list TypeElement) :
  parseMembers (l1 ++ l2) = parseMembers l1 ++ parseMembers l2.
Proof. unfold parseMembers. by rewrite map_app, concat_app. Qed.

Lemma parseMembers_map {A} (f : MemberInfo → A) (g : Signature → A)
  (members : list TypeElement) :
  (∀ s k, f (parseSignature s k) = g s) →
  map f (parseMembers members) = map g (omap signatureOf members).
Proof.
  intros H. induction members as [|m ms IH]; [done |].
  change (parseMembers (m :: ms)) with (parseMember m ++ parseMembers ms).
  rewrite map_app, IH.
  destruct m as [s|s ps|]; [| |done].
  - change (omap signatureOf (PropertySignature s :: ms))
      with (s :: omap signatureOf ms).
    simpl. by rewrite H.
  - change (omap signatureOf (MethodSignature s ps :: ms))
      with (s :: omap signatureOf ms).
    simpl. by rewrite H.
Qed.

(** X5. [parseMembers] keeps the property and method signatures in source
    order and leaves the other members out, and the signature block of the
    rendered interface reproduces the source text of each member kept, one on
    a line behind two spaces, between the line of the interface name and the
    closing brace. *)
Theorem signature_block_lists_members (fullText : string)
  (members : list TypeElement) :
  map m_name (parseMembers members) = map sig_name (omap signatureOf members)
  ∧ renderInterfaceSignature fullText (parseMembers members) =
      cat ["```ts"; JS.LF;
           "interface "; fullText; " {"; JS.LF;
           JS.join JS.LF
             (map (λ s, "  " +:+ sig_text s) (omap signatureOf members));
           JS.LF; "}"; JS.LF;
           "```"; JS.LF]
  ∧ ((∀ m, m ∈ members → m = OtherElement) → parseMembers members = []).
Proof.
  split; [by apply parseMembers_map |]. split.
  - unfold renderInterfaceSignature.
    by rewrite (parseMembers_map (λ member, "  " +:+ m_fullText member)
                  (λ s, "  " +:+ sig_text s)).
  - intros H. induction members as [|m ms IH]; [done |].
    change (parseMembers (m :: ms)) with (parseMember m ++ parseMembers ms).
    rewrite IH by (intros m' Hm'; apply H; by right).
    by rewrite (H m) by left.
Qed.

Lemma signature_block_lists_members_witness :
  parseMembers [OtherElement; OtherElement] = [].
Proof.
  apply (proj2 (proj2 (signature_block_lists_members "Foo"
                         [OtherElement; OtherElement]))).
  intros m Hm. apply elem_of_cons in Hm as [->|Hm]; [done |].
  by apply list_elem_of_singleton in Hm.
Defined.

(** ** Rendered types *)

Lemma allChars_app (P : ascii → bool) (a b : string) :
  allChars P (a +:+ b) = allChars P a && allChars P b.
Proof.
  induction a as [|c a IH]; simpl; [done |]. by rewrite IH, andb_assoc.
Qed.

Lemma replace_absent (pat template s : string) :
  JS.includes pat s = false → JS.replace pat template s = s.
Proof.
  unfold JS.includes, JS.replace. intros H. apply bool_decide_eq_false in H.
  destruct (JS.cut pat s) as [[pre post]|]; [|done]. destruct H. by eexists.
Qed.

Lemma renderType_encodedText (type : string) (knownTypeMap : JS.Map) :
  renderType type knownTypeMap =
  foldl (λ typeText kv, JS.replace kv.1 (link kv.1 kv.2) typeText)
        (encodedText type) knownTypeMap.
Proof. done. Qed.

Lemma encode_entities_plain (s : string) :
  allChars plainChar s = true →
  JS.replace_newlines (JS.encode_entities s) = s.
Proof.
  induction s as [|c s IH]; [done |]. simpl. intros H.
  apply andb_true_iff in H as [Hc Hs]. unfold plainChar in Hc.
  apply andb_true_iff in Hc as [He Hl].
  apply negb_true_iff in He. apply negb_true_iff, bool_decide_eq_false in Hl.
  rewrite He. simpl. by rewrite (bool_decide_eq_false_2 _ Hl), IH.
Qed.

(** The encoding of one code unit *)
Lemma encode_entities_cons (c : ascii) (r : string) :
  JS.encode_entities (String c r) =
  JS.encode_entities (String c "") +:+ JS.encode_entities r.
Proof.
  simpl. destruct (JS.is_entity c); simpl; [|done].
  by rewrite !Str.app_assoc.
Qed.

Lemma replace_newlines_app (a b : string) :
  JS.replace_newlines (a +:+ b) = JS.replace_newlines a +:+ JS.replace_newlines b.
Proof. induction a as [|c a IH]; simpl; [done | by rewrite IH]. Qed.

Lemma encoded_char_safe (c : ascii) :
  allChars encodedChar (JS.replace_newlines (JS.encode_entities (String c "")))
  = true.
Proof. destruct c as [[] [] [] [] [] [] [] []]; vm_compute; reflexivity. Qed.

Lemma encoded_safe (s : string) :
  allChars encodedChar (JS.replace_newlines (JS.encode_entities s)) = true.
Proof.
  induction s as [|c s IH]; [done |].
  rewrite encode_entities_cons, replace_newlines_app, allChars_app.
  by rewrite encoded_char_safe, IH.
Qed.

(** X6. When none of the registered titles occurs in the encoded type text,
    [renderType] gives the encoded text with no link in it, whatever the type
    map holds; and a type text without surrounding white space, line feed,
    angle bracket, ampersand or code unit from U+00A0 on is its own encoding,
    so that such a text is rendered as it stands. *)
Theorem renderType_without_known_type (type : string) (knownTypeMap : JS.Map) :
  (∀ kv, kv ∈ knownTypeMap → JS.includes kv.1 (encodedText type) = false) →
  renderType type knownTypeMap = encodedText type
  ∧ (JS.trim type = type → allChars plainChar type = true →
       renderType type knownTypeMap = type).
Proof.
  intros H.
  assert (renderType type knownTypeMap = encodedText type) as R.
  { rewrite renderType_encodedText.
    induction knownTypeMap as [|kv m IH]; [done |].
    simpl. rewrite replace_absent by (apply H; by left).
    apply IH. intros kv' Hkv'. apply H. by right. }
  split; [done |]. intros Ht Hp. rewrite R. unfold encodedText.
  rewrite Ht. by apply encode_entities_plain.
Qed.

Lemma renderType_without_known_type_witness :
  renderType " Array<string>" [("ShippingMethod", "shipping/shipping-method")]
  = "Array&#60;string&#62;"
  ∧ renderType "number[]" [("ShippingMethod", "shipping/shipping-method")]
    = "number[]".
Proof.
  split.
  - apply (renderType_without_known_type " Array<string>"
             [("ShippingMethod", "shipping/shipping-method")]).
    intros kv Hkv. apply list_elem_of_singleton in Hkv. subst kv. reflexivity.
  - apply (renderType_without_known_type "number[]"
             [("ShippingMethod", "shipping/shipping-method")]);
      [|reflexivity | reflexivity].
    intros kv Hkv. apply list_elem_of_singleton in Hkv. subst kv. reflexivity.
Defined.

(** X7. With no title registered, the rendered type of a Latin-1 type text
    (code units below U+0100, the texts of this model) holds no angle
    bracket, no line feed and no code unit from U+00A0 to U+00FF: these are
    all replaced by the encoding.  (The class of the code ends at U+9999;
    the code units above it, which the code leaves as they are, are no texts
    of the model.) *)
Theorem renderType_escapes (type : string) :
  allChars encodedChar (renderType type []) = true.
Proof. apply encoded_safe. Qed.

Lemma getSubstitution_plain (matched before after template : string) :
  noDollar template = true →
  JS.getSubstitution matched before after template = template.
Proof.
  induction template as [|c r IH]; [done |]. simpl. intros H.
  apply andb_true_iff in H as [Hc Hr].
  apply negb_true_iff in Hc. rewrite Hc. by rewrite IH.
Qed.

Lemma noDollar_cat (pieces : list string) :
  Forall (λ s, noDollar s = true) pieces → noDollar (cat pieces) = true.
Proof.
  induction 1 as [|s l Hs Hl IH]; [done |].
  change (cat (s :: l)) with (s +:+ cat l). unfold noDollar in *.
  by rewrite allChars_app, Hs, IH.
Qed.

Lemma cut_of_first (pat s pre post : string) :
  s = pre +:+ pat +:+ post →
  (∀ pre' post', s = pre' +:+ pat +:+ post' →
     (String.length pre <= String.length pre')%nat) →
  JS.cut pat s = Some (pre, post).
Proof.
  intros Hs Hmin. destruct (JS.cut pat s) as [[pre0 post0]|] eqn:C.
  - pose proof (Str.cut_Some _ _ _ _ C) as E.
    pose proof (cut_first _ _ _ _ C pre post Hs) as L1.
    pose proof (Hmin pre0 post0 E) as L2.
    destruct (app_same_length pre0 pre (pat +:+ post0) (pat +:+ post))
      as [-> E2]; [congruence | lia |].
    apply (inj (String.app pat)) in E2. by subst.
  - by destruct (cut_None _ _ C pre post).
Qed.

(** X8. With one title registered, under a title and a path without a
    dollar sign, [renderType] wraps the first occurrence of the title in the
    encoded type text in an anchor to [/docs/api//path/] and leaves the text
    in front of it and behind it as it is. *)
Theorem renderType_links_first_occurrence (type key val pre post : string) :
  noDollar key = true → noDollar val = true →
  encodedText type = pre +:+ key +:+ post →
  (∀ pre' post', encodedText type = pre' +:+ key +:+ post' →
     (String.length pre <= String.length pre')%nat) →
  renderType type [(key, val)] =
  pre +:+ cat ["<a href='/docs/api//"; val; "/'>"; key; "</a>"] +:+ post.
Proof.
  intros Hk Hv Hs Hmin. rewrite renderType_encodedText. simpl.
  unfold JS.replace. rewrite (cut_of_first _ _ _ _ Hs Hmin).
  rewrite getSubstitution_plain; [done |].
  apply noDollar_cat. by repeat constructor.
Qed.

Lemma renderType_links_first_occurrence_witness :
  renderType "Order | Array<Order>" [("Order", "orders/order")]
  = "<a href='/docs/api//orders/order/'>Order</a> | Array&#60;Order&#62;".
Proof.
  apply (renderType_links_first_occurrence "Order | Array<Order>" "Order"
           "orders/order" "" " | Array&#60;Order&#62;");
    [reflexivity | reflexivity | reflexivity |].
  intros pre' post' _. simpl. lia.
Defined.

(** ** What a pass writes *)





Lemma registerAll_snoc (infos : list DeclarationInfo) (info : DeclarationInfo)
  (m : JS.Map) :
  registerAll (infos ++ [info]) m =
  JS.Map_set (title info) (registeredPath info) (registerAll infos m).
Proof. unfold registerAll. by rewrite foldl_app. Qed.

(** The entry of a title is the path of the last record with that title *)
Lemma registerAll_last (infos : list DeclarationInfo) (m : JS.Map) (k : string) :
  JS.Map_get k (registerAll infos m) =
  match last (filter (λ i, title i = k) infos) with
  | Some i => Some (registeredPath i)
  | None => JS.Map_get k m
  end.
Proof.
  induction infos as [|i infos IH] using rev_ind; [done |].
  rewrite registerAll_snoc, Map_get_set, filter_app.
  destruct (decide (title i = k)) as [E|E].
  - rewrite filter_cons_True, filter_nil by done. by rewrite last_snoc.
  - rewrite filter_cons_False, filter_nil by done. by rewrite app_nil_r.
Qed.

Section Written.

Variable path_join : string → string → string.
Variable now : nat → string.
Variable out : string.

Lemma emit_frame (w : World) (info : DeclarationInfo) (p : string) :
  p ≠ docFile path_join out info → p ≠ indexFile path_join out info →
  files (emit path_join now out w info) !! p = files w !! p.
Proof.
  intros H1 H2. rewrite emit_files, lookup_insert_ne by done.
  destruct (existsSync _ _); [done |]. by rewrite lookup_insert_ne.
Qed.

Lemma foldl_emit_frame (infos : list DeclarationInfo) (w : World) (p : string) :
  (∀ i, i ∈ infos →
     p ≠ docFile path_join out i ∧ p ≠ indexFile path_join out i) →
  files (foldl (emit path_join now out) w infos) !! p = files w !! p.
Proof.
  revert w. induction infos as [|i infos IH]; intros w H; [done |].
  simpl. rewrite IH by (intros j Hj; apply H; by right).
  apply emit_frame; apply H; by left.
Qed.



Lemma emit_dirs_cases (w : World) (info : DeclarationInfo) (q : string) :
  q ∈ dirs (emit path_join now out w info) ↔
  q ∈ dirs w
  ∨ (q = categoryDir path_join out info
     ∧ existsSync (categoryDir path_join out info) w = false).
Proof.
  rewrite emit_dirs. unfold ensureDir.
  destruct (existsSync (categoryDir path_join out info) w) eqn:E.
  - split; [by left | by intros [?|[_ ?]]].
  - simpl. rewrite elem_of_union, elem_of_singleton. split.
    + intros [->|?]; [by right | by left].
    + intros [?|[-> _]]; [by right | by left].
Qed.

Lemma foldl_emit_dirs (infos : list DeclarationInfo) (w : World) (q : string) :
  q ∈ dirs (foldl (emit path_join now out) w infos) →
  q ∈ dirs w ∨ ∃ i, i ∈ infos ∧ q = categoryDir path_join out i.
Proof.
  revert w. induction infos as [|i infos IH]; intros w H; [by left |].
  simpl in H. apply IH in H as [H|(j & Hj & ->)].
  - apply emit_dirs_cases in H as [H|[-> _]]; [by left |].
    right. exists i. split; [by left | done].
  - right. exists j. split; [by right | done].
Qed.

Lemma foldl_emit_dirs_keep (infos : list DeclarationInfo) (w : World) (q : string) :
  q ∈ dirs w → q ∈ dirs (foldl (emit path_join now out) w infos).
Proof.
  revert w. induction infos as [|i infos IH]; intros w H; [done |].
  simpl. apply IH, emit_dirs_cases. by left.
Qed.

(** The document at a path is the one of the last record written there *)
Lemma foldl_emit_last (infos : list DeclarationInfo) (w : World) (p : string)
  (info : DeclarationInfo) :
  last (filter (λ i, docFile path_join out i = p) infos) = Some info →
  ∃ n, files (foldl (emit path_join now out) w infos) !! p
       = Some (render (now n) info (typeMap w)).
Proof.
  revert info. induction infos as [|i infos IH] using rev_ind; [done |].
  intros info. rewrite filter_app, foldl_app. cbn [foldl].
  destruct (decide (docFile path_join out i = p)) as [E|E].
  - rewrite filter_cons_True, filter_nil by done. rewrite last_snoc.
    intros [= <-].
    eexists. by rewrite <- E, emit_doc, foldl_emit_typeMap.
  - rewrite filter_cons_False, filter_nil by done. rewrite app_nil_r. intros H.
    destruct (IH info H) as [n Hn]. exists n.
    rewrite emit_other; [done | | done].
    unfold existsSync. rewrite Hn. done.
Qed.

(** X10. A pass changes no file other than the documents and the index
    documents of its records, removes no file and no directory, and makes no
    directory other than the category directories of its records. *)
Theorem pass_frame (sourceFiles : list SourceFile) (w : World) :
  (∀ p, (∀ i, i ∈ declarationInfos sourceFiles →
           p ≠ docFile path_join out i ∧ p ≠ indexFile path_join out i) →
        files (generateDocs path_join now sourceFiles out w) !! p = files w !! p)
  ∧ (∀ p, is_Some (files w !! p) →
          is_Some (files (generateDocs path_join now sourceFiles out w) !! p))
  ∧ (∀ q, q ∈ dirs w → q ∈ dirs (generateDocs path_join now sourceFiles out w))
  ∧ (∀ q, q ∈ dirs (generateDocs path_join now sourceFiles out w) →
          q ∈ dirs w
          ∨ ∃ i, i ∈ declarationInfos sourceFiles
                 ∧ q = categoryDir path_join out i).
Proof.
  assert (dirs (generateDocs path_join now sourceFiles out w) =
          dirs (foldl (emit path_join now out)
                  (registered (declarationInfos sourceFiles) w)
                  (declarationInfos sourceFiles))) as D.
  { rewrite generateDocs_eq. cbv zeta. by destruct (declarationInfos sourceFiles). }
  split; [|split; [|split]].
  - intros p H. rewrite generateDocs_files. by rewrite foldl_emit_frame.
  - intros p H. rewrite generateDocs_files.
    by apply (foldl_emit_keeps_file _ _ _ _ (registered _ w)).
  - intros q H. rewrite D. by apply (foldl_emit_dirs_keep _ (registered _ w)).
  - intros q. rewrite D. apply (foldl_emit_dirs _ (registered _ w)).
Qed.

End Written.

Lemma pass_frame_witness :
  files (generateDocs slash_join iso [exampleFile] "/out" (start staleTree ∅))
    !! "/out/common/notes.md"
  = Some "# Notes, generated: false".
Proof.
  apply (proj1 (pass_frame slash_join iso "/out" [exampleFile] (start staleTree ∅))
           "/out/common/notes.md").
  intros i Hi. apply list_elem_of_singleton in Hi. subst i. by split.
Defined.

(** ** Passes and the deletion of generated documents *)

Section Cycle.

Variable path_join : string → string → string.
Variable inside : string → string → bool.
Variable outputPath : string.
Variable now : nat → string.

Lemma deleteLoop_count (l : list string) (n : nat) (w w' : World) (n' : nat) :
  NoDup l → (∀ p, p ∈ l → is_Some (files w !! p)) →
  deleteLoop l n w = Some (w', n') →
  (size (files w) + n = size (files w') + n')%nat.
Proof.
  revert n w. induction l as [|file rest IH]; intros n w Hnd Hall.
  - by intros [= <- <-].
  - apply NoDup_cons in Hnd as [Hnin Hnd].
    destruct (Hall file) as [content Hc]; [by left |].
    simpl. unfold readFileSync. rewrite Hc.
    destruct (isGenerated content).
    + intros H. apply IH in H; [| done |].
      * simpl in H. rewrite map_size_delete_Some in H by (by eexists).
        assert (size (files w) ≠ 0%nat) as Hs.
        { apply map_size_non_empty_iff. intros E. by rewrite E in Hc. }
        lia.
      * intros p Hp. simpl. rewrite lookup_delete_ne by (by intros ->).
        apply Hall. by right.
    + intros H. apply IH in H; [done | done |].
      intros p Hp. apply Hall. by right.
Qed.

(** X11. The count that [deleteGeneratedDocs] reports is the number of files
    that it has removed. *)
Theorem deleteGeneratedDocs_count (w : World) :
  ∃ w' deleteCount,
    deleteGeneratedDocs inside outputPath w = Some (w', deleteCount)
    ∧ size (files w) = (size (files w') + deleteCount)%nat.
Proof.
  destruct (deleteGeneratedDocs_result inside outputPath w)
    as (w' & n & Hd & _).
  exists w', n. split; [done |].
  apply deleteLoop_count in Hd.
  - lia.
  - apply klawSync_NoDup.
  - intros p Hp. by apply klawSync_elem in Hp as [_ ?].
Qed.

(** X12. Deleting the generated documents twice is deleting them once: after
    a first run, a second one removes nothing, reports the count 0 and leaves
    the world as it is. *)
Theorem deleteGeneratedDocs_twice (w : World) :
  ∃ w' deleteCount,
    deleteGeneratedDocs inside outputPath w = Some (w', deleteCount)
    ∧ deleteGeneratedDocs inside outputPath w' = Some (w', 0%nat).
Proof.
  destruct (deleteGeneratedDocs_result inside outputPath w)
    as (w1 & n & Hd & Hf & _).
  exists w1, n. split; [done |].
  destruct (deleteLoop_spec (klawSync inside outputPath w1) 0 w1)
    as (w2 & n2 & Hd2 & Ht & Hdi & Hc & Hh & Hf2).
  { apply klawSync_NoDup. }
  { intros p Hp. by apply klawSync_elem in Hp as [_ ?]. }
  assert (files w2 = files w1) as Hfiles.
  { apply map_eq. intros p. rewrite Hf2. unfold survives.
    destruct (files w1 !! p) as [c|] eqn:E; [simpl | done].
    rewrite Hf in E. destruct (files w !! p) as [c0|]; [|done].
    destruct (inside outputPath p && isGenerated c0) eqn:G; [done |].
    injection E as ->.
    destruct (bool_decide (p ∈ klawSync inside outputPath w1)) eqn:B; [|done].
    apply bool_decide_eq_true, klawSync_elem in B as [B _].
    rewrite B in G. simpl in G. by rewrite G. }
  assert (n2 = 0%nat) as ->.
  { pose proof Hd2 as Hcount. apply deleteLoop_count in Hcount.
    - rewrite Hfiles in Hcount. lia.
    - apply klawSync_NoDup.
    - intros p Hp. by apply klawSync_elem in Hp as [_ ?]. }
  unfold deleteGeneratedDocs. rewrite Hd2. do 2 f_equal.
  destruct w1, w2; simpl in *; by subst.
Qed.


End Cycle.

Lemma deleteGeneratedDocs_count_witness :
  ∃ w', deleteGeneratedDocs below "/out" (start staleTree ∅) = Some (w', 1%nat)
        ∧ size (files w') = 2%nat.
Proof.
  destruct (deleteGeneratedDocs_count below "/out" (start staleTree ∅))
    as (w' & n & Hd & Hs).
  pose proof Hd as Hd'. vm_compute in Hd'. injection Hd' as Hw Hn.
  subst n. exists w'. split; [exact Hd |].
  change (size (files (start staleTree ∅))) with 3%nat in Hs. lia.
Defined.

Lemma deleteGeneratedDocs_twice_witness :
  ∃ w', deleteGeneratedDocs below "/out" (start staleTree ∅) = Some (w', 1%nat)
        ∧ deleteGeneratedDocs below "/out" w' = Some (w', 0%nat).
Proof.
  destruct (deleteGeneratedDocs_twice below "/out" (start staleTree ∅))
    as (w' & n & Hd & H2).
  pose proof Hd as Hd'. vm_compute in Hd'. injection Hd' as Hw Hn.
  subst n. exists w'. exact (conj Hd H2).
Defined.


(** ** The watch mode *)

Lemma Map_set_keys (k v : string) (m : JS.Map) :
  keys (JS.Map_set k v m) =
  if bool_decide (k ∈ keys m) then keys m else keys m ++ [k].
Proof.
  unfold keys. induction m as [|[a b] m IH]; simpl.
  - reflexivity.
  - destruct (decide (a = k)) as [->|E].
    + rewrite bool_decide_eq_true_2 by done. simpl.
      by rewrite bool_decide_eq_true_2 by left.
    + rewrite (bool_decide_eq_false_2 _ E). simpl. rewrite IH.
      destruct (decide (k ∈ map fst m)) as [Hin|Hin].
      * rewrite (bool_decide_eq_true_2 _ Hin).
        by rewrite bool_decide_eq_true_2 by (by right).
      * rewrite (bool_decide_eq_false_2 _ Hin).
        rewrite bool_decide_eq_false_2; [done |].
        intros [?|?]%elem_of_cons; congruence.
Qed.

Lemma registerAll_keys_prefix (infos : list DeclarationInfo) (m : JS.Map) :
  keys m `prefix_of` keys (registerAll infos m).
Proof.
  induction infos as [|i infos IH] using rev_ind; [done |].
  rewrite registerAll_snoc, Map_set_keys.
  case_bool_decide; [done |]. by apply prefix_app_r.
Qed.

Section Watch.

Variable path_join : string → string → string.
Variable inside : string → string → bool.
Variable outputPath : string.
Variable now : nat → string.

(** What a pass keeps of the world it starts from *)
Lemma generateDocs_keeps (sourceFiles : list SourceFile) (out : string)
  (w : World) :
  (∀ k, is_Some (JS.Map_get k (typeMap w)) →
        is_Some (JS.Map_get k
                   (typeMap (generateDocs path_join now sourceFiles out w))))
  ∧ keys (typeMap w)
      `prefix_of` keys (typeMap (generateDocs path_join now sourceFiles out w))
  ∧ (∀ p, is_Some (files w !! p) →
          is_Some (files (generateDocs path_join now sourceFiles out w) !! p))
  ∧ dirs w ⊆ dirs (generateDocs path_join now sourceFiles out w).
Proof.
  rewrite generateDocs_typeMap, generateDocs_files.
  split; [|split; [|split]].
  - intros k. apply registerAll_keeps.
  - apply registerAll_keys_prefix.
  - intros p. apply (foldl_emit_keeps_file _ _ _ _ (registered _ w)).
  - intros q Hq. rewrite generateDocs_eq. cbv zeta.
    destruct (declarationInfos sourceFiles) eqn:E; [done |]. rewrite <- E.
    change (dirs (tick ?x)) with (dirs x).
    by apply (foldl_emit_dirs_keep _ _ _ _ (registered _ w)).
Qed.

Lemma changes_keep (changes : list SourceFile) (w : World) :
  (∀ k, is_Some (JS.Map_get k (typeMap w)) →
        is_Some (JS.Map_get k
                   (typeMap (foldl (onChange path_join outputPath now) w changes))))
  ∧ keys (typeMap w)
      `prefix_of` keys (typeMap (foldl (onChange path_join outputPath now) w
                                   changes))
  ∧ (∀ p, is_Some (files w !! p) →
          is_Some (files (foldl (onChange path_join outputPath now) w changes)
                     !! p))
  ∧ dirs w ⊆ dirs (foldl (onChange path_join outputPath now) w changes).
Proof.
  revert w. induction changes as [|sf changes IH]; intros w; [done |].
  simpl. destruct (IH (onChange path_join outputPath now w sf))
    as (I1 & I2 & I3 & I4).
  destruct (generateDocs_keeps [sf] outputPath w) as (G1 & G2 & G3 & G4).
  split; [|split; [|split]].
  - intros k Hk. by apply I1, G1.
  - by etrans.
  - intros p Hp. by apply I3, G3.
  - by etrans.
Qed.

(** X14. In watch mode nothing is ever taken back: through the passes that
    the changes of the source files set off, every title of the type map
    stays in it, at its place in the order of iteration, and every file and
    directory stays in the tree; the documents are not deleted again, so that
    the entry and the document of a declaration that has gone from its source
    file remain. *)
Theorem watch_never_removes (sourceFiles changes : list SourceFile) (w : World) :
  ∃ w1 w',
    main path_join inside outputPath now sourceFiles w = Some w1
    ∧ watch path_join inside outputPath now sourceFiles changes w = Some w'
    ∧ (∀ k, is_Some (JS.Map_get k (typeMap w1)) →
            is_Some (JS.Map_get k (typeMap w')))
    ∧ keys (typeMap w1) `prefix_of` keys (typeMap w')
    ∧ (∀ p, is_Some (files w1 !! p) → is_Some (files w' !! p))
    ∧ dirs w1 ⊆ dirs w'.
Proof.
  unfold watch, main.
  destruct (deleteGeneratedDocs_result inside outputPath w) as (w0 & n & -> & _).
  eexists _, _. split; [done |]. split; [done |]. apply changes_keep.
Qed.

End Watch.

Lemma watch_never_removes_witness :
  ∃ w',
    watch slash_join below "/out" iso [exampleFile]
      [{| sf_fileName := sf_fileName exampleFile;
          sf_statements := [(9%N, Declaration (interfaceDecl "Internal" [] []))] |}]
      (start ∅ ∅) = Some w'
    ∧ is_Some (JS.Map_get "Foo" (typeMap w'))
    ∧ is_Some (files w' !! "/out/common/foo.md").
Proof.
  destruct (watch_never_removes slash_join below "/out" iso [exampleFile]
              [{| sf_fileName := sf_fileName exampleFile;
                  sf_statements :=
                    [(9%N, Declaration (interfaceDecl "Internal" [] []))] |}]
              (start ∅ ∅))
    as (w1 & w' & Hm & Hw & Ht & _ & Hf & _).
  vm_compute in Hm. injection Hm as <-.
  exists w'. split; [exact Hw |]. split.
  - apply Ht. vm_compute. by eexists.
  - apply Hf. vm_compute. by eexists.
Defined.

(** ** File names and titles *)

Lemma lower_not_upper (c : ascii) : JS.is_upper (JS.lower c) = false.
Proof. destruct c as [[] [] [] [] [] [] [] []]; reflexivity. Qed.

Lemma lower_hyphen (c : ascii) :
  bool_decide (JS.lower c = "-"%char) = bool_decide (c = "-"%char).
Proof. destruct c as [[] [] [] [] [] [] [] []]; reflexivity. Qed.

Lemma toLowerCase_noUpper (s : string) : noUpper (JS.toLowerCase s) = true.
Proof.
  induction s as [|c s IH]; [done |]. simpl. by rewrite lower_not_upper, IH.
Qed.

Lemma dropHyphens_hyphenate (started : bool) (s : string) :
  dropHyphens s = s →
  dropHyphens (JS.toLowerCase (hyphenate started s)) = JS.toLowerCase s.
Proof.
  revert started. induction s as [|c s IH]; intros started; [done |].
  simpl. destruct (decide (c = "-"%char)) as [->|Hc].
  - rewrite bool_decide_eq_true_2 by done. intros H.
    apply (f_equal String.length) in H. simpl in H.
    assert (∀ x, (String.length (dropHyphens x) <= String.length x)%nat) as L.
    { clear. induction x as [|a x IHx]; simpl; [lia |].
      case_bool_decide; simpl; lia. }
    specialize (L s). lia.
  - rewrite (bool_decide_eq_false_2 _ Hc). intros [= H].
    destruct (JS.is_upper c && started); simpl;
      rewrite lower_hyphen, (bool_decide_eq_false_2 _ Hc), (IH true H); done.
Qed.

(** X15. The file name of a record holds no upper-case letter A to Z, and,
    for a Latin-1 title (code units below U+0100, the texts of this model),
    it keeps the title: when the title has no hyphen (as every identifier
    is), dropping the hyphens of the file name gives the title in lower
    case.  (On Latin-1 texts [toLowerCase] goes code unit by code unit; a
    capital sigma, whose lower case depends on what follows it, is no code
    unit of the model.) *)
Theorem fileName_keeps_title (d : ValidDeclaration) (sourceFile : string)
  (sourceLine : N) (info : DeclarationInfo) :
  parseDeclaration (Declaration d) sourceFile sourceLine = Some info →
  noUpper (fileName info) = true
  ∧ (dropHyphens (title info) = title info →
       dropHyphens (fileName info) = JS.toLowerCase (title info)).
Proof.
  unfold parseDeclaration. destruct (getDocsCategory d); [|done].
  intros [= <-]. simpl. split; [apply toLowerCase_noUpper |].
  rewrite fileName_slug. apply dropHyphens_hyphenate.
Qed.

Lemma fileName_keeps_title_witness :
  ∃ info,
    parseDeclaration
      (Declaration (interfaceDecl "ShippingMethodQuote"
                      [tag "docsCategory" "shipping"] []))
      "/server/src/common.ts" 1 = Some info
    ∧ fileName info = "shipping-method-quote"
    ∧ dropHyphens (fileName info) = "shippingmethodquote".
Proof.
  eexists. split; [reflexivity |]. split; [reflexivity |].
  apply (proj2 (fileName_keeps_title
                  (interfaceDecl "ShippingMethodQuote"
                     [tag "docsCategory" "shipping"] [])
                  "/server/src/common.ts" 1 _ eq_refl)).
  reflexivity.
Defined.

(** ** The entity encoding *)

Lemma decode_char (c : ascii) (rest : string) :
  decodeFrom InText (JS.encode_entities (String c "") +:+ rest)
  = String c (decodeFrom InText rest).
Proof. destruct c as [[] [] [] [] [] [] [] []]; reflexivity. Qed.

Lemma decode_encode (s : string) : decodeEntities (JS.encode_entities s) = s.
Proof.
  unfold decodeEntities. induction s as [|c s IH]; [done |].
  by rewrite encode_entities_cons, decode_char, IH.
Qed.

Lemma encode_newlines_commute (s : string) :
  JS.replace_newlines (JS.encode_entities s)
  = JS.encode_entities (JS.replace_newlines s).
Proof.
  induction s as [|c s IH]; [done |].
  rewrite encode_entities_cons, replace_newlines_app, IH.
  change (JS.replace_newlines (String c s))
    with (String (if bool_decide (c = "010"%char) then " "%char else c)
            (JS.replace_newlines s)).
  rewrite (encode_entities_cons _ (JS.replace_newlines s)). f_equal.
  destruct c as [[] [] [] [] [] [] [] []]; reflexivity.
Qed.

(** X16. The entity encoding of [renderType] loses nothing: reading the
    numeric character references of the rendered type back gives the trimmed
    type text with its line feeds as spaces, and two texts with the same
    encoding are the same text. *)
Theorem renderType_decodes (type : string) :
  decodeEntities (renderType type []) = JS.replace_newlines (JS.trim type)
  ∧ ∀ s1 s2, JS.encode_entities s1 = JS.encode_entities s2 → s1 = s2.
Proof.
  split.
  - rewrite renderType_encodedText. simpl. unfold encodedText.
    by rewrite encode_newlines_commute, decode_encode.
  - intros s1 s2 H. by rewrite <- (decode_encode s1), H, decode_encode.
Qed.

(** ** The type map over passes *)

Lemma Map_get_keys (k : string) (m : JS.Map) :
  is_Some (JS.Map_get k m) ↔ k ∈ keys m.
Proof.
  unfold keys. induction m as [|[a b] m IH]; simpl.
  - split; [by intros [? ?] | by intros ?%elem_of_nil].
  - case_bool_decide as E.
    + split; [intros _; subst; by left | by eexists].
    + rewrite IH, elem_of_cons. split; [by right | by intros [?|?]].
Qed.

Lemma Map_ext (m1 m2 : JS.Map) :
  NoDup (keys m1) → keys m1 = keys m2 →
  (∀ k, JS.Map_get k m1 = JS.Map_get k m2) → m1 = m2.
Proof.
  unfold keys. revert m2.
  induction m1 as [|[a b] m1 IH]; intros [|[a' b'] m2]; simpl; try done.
  intros [Ha Hn]%NoDup_cons [= <- Hk] H.
  pose proof (H a) as Hab. rewrite !bool_decide_eq_true_2 in Hab by done.
  injection Hab as <-. f_equal. apply IH; [done | done |].
  intros k. specialize (H k). case_bool_decide as E; [subst k | done].
  assert (JS.Map_get a m1 = None) as ->.
  { apply eq_None_not_Some. by rewrite Map_get_keys. }
  symmetry. apply eq_None_not_Some. rewrite Map_get_keys. unfold keys.
  by rewrite <- Hk.
Qed.

Lemma registerAll_NoDup (infos : list DeclarationInfo) (m : JS.Map) :
  NoDup (keys m) → NoDup (keys (registerAll infos m)).
Proof.
  intros H. induction infos as [|i infos IH] using rev_ind; [done |].
  rewrite registerAll_snoc, Map_set_keys. case_bool_decide as E; [done |].
  apply NoDup_app. split; [done |]. split; [|apply NoDup_singleton].
  intros x Hx ->%list_elem_of_singleton. done.
Qed.

Lemma registerAll_keys_same (infos : list DeclarationInfo) (m : JS.Map) :
  (∀ i, i ∈ infos → title i ∈ keys m) → keys (registerAll infos m) = keys m.
Proof.
  induction infos as [|i infos IH] using rev_ind; intros H; [done |].
  rewrite registerAll_snoc, Map_set_keys.
  rewrite IH by (intros j Hj; apply H, elem_of_app; by left).
  rewrite bool_decide_eq_true_2; [done |].
  apply H, elem_of_app. right. by left.
Qed.

Lemma registerAll_idem (infos : list DeclarationInfo) (m : JS.Map) :
  NoDup (keys m) →
  registerAll infos (registerAll infos m) = registerAll infos m.
Proof.
  intros H. apply Map_ext.
  - by do 2 apply registerAll_NoDup.
  - apply registerAll_keys_same. intros i Hi.
    apply Map_get_keys. by apply registerAll_has.
  - intros k. rewrite (registerAll_last infos (registerAll infos m)).
    rewrite (registerAll_last infos m).
    by destruct (last (filter (λ i, title i = k) infos)).
Qed.

Section TypeMap.

Variable path_join : string → string → string.
Variable now : nat → string.

(** X17. The type map holds a title once: a pass over any source files keeps
    a type map without a title twice that way. A pass over source files that
    have been passed over before, as in watch mode when a file is saved
    unchanged, leaves the type map as it is. *)
Theorem typeMap_regeneration (sourceFiles : list SourceFile) (out out' : string)
  (w : World) :
  NoDup (keys (typeMap w)) →
  NoDup (keys (typeMap (generateDocs path_join now sourceFiles out w)))
  ∧ typeMap (generateDocs path_join now sourceFiles out'
               (generateDocs path_join now sourceFiles out w))
    = typeMap (generateDocs path_join now sourceFiles out w).
Proof.
  intros H. rewrite !generateDocs_typeMap. split.
  - by apply registerAll_NoDup.
  - by apply registerAll_idem.
Qed.

End TypeMap.

Lemma typeMap_regeneration_witness :
  typeMap (generateDocs slash_join iso [exampleFile] "/out"
             (generateDocs slash_join iso [exampleFile] "/out" (start ∅ ∅)))
  = [("Foo", "common/foo")].
Proof.
  rewrite (proj2 (typeMap_regeneration slash_join iso [exampleFile] "/out" "/out"
                    (start ∅ ∅) (NoDup_nil_2))).
  reflexivity.
Defined.

(** ** Documents and the type map *)

Lemma renderType_unknown (type : string) (knownTypeMap : JS.Map) :
  unknownTo knownTypeMap type → renderType type knownTypeMap = renderType type [].
Proof.
  intros H. rewrite !renderType_encodedText.
  induction knownTypeMap as [|kv m IH]; [done |].
  simpl. rewrite replace_absent by (apply H; by left).
  apply IH. intros kv' Hkv'. apply H. by right.
Qed.

Lemma memberType_unknown (member : MemberInfo) (knownTypeMap : JS.Map) :
  (∀ t, t ∈ typeTexts member → unknownTo knownTypeMap t) →
  memberType member knownTypeMap = memberType member [].
Proof.
  unfold memberType, typeTexts. intros H.
  destruct (m_kind member) as [d|ps].
  - apply renderType_unknown, H. by left.
  - rewrite (renderType_unknown (m_type member)) by (apply H; by left).
    rewrite (map_ext_in
               (λ p, cat [mp_name p; ": "; renderType (mp_type p) knownTypeMap])
               (λ p, cat [mp_name p; ": "; renderType (mp_type p) []]) ps);
      [done |].
    intros p Hp. rewrite (renderType_unknown (mp_type p)); [done |].
    apply H. right. apply list_elem_of_fmap. exists p. split; [done |].
    by apply list_elem_of_In.
Qed.

(** X19. The document of a type alias does not depend on the type map: its
    type is written as it is, without links. The document of an interface
    depends on the type map through the types of its members only: when no
    registered title occurs in the encoded type of a member or of a
    parameter, the document is the one that the empty type map gives. *)
Theorem document_without_known_types (date : string) (info : DeclarationInfo)
  (knownTypeMap : JS.Map) :
  (∀ type, kind info = typeAlias type →
     render date info knownTypeMap = render date info [])
  ∧ (∀ members, kind info = interface members →
       (∀ member t, member ∈ members → t ∈ typeTexts member →
          unknownTo knownTypeMap t) →
       render date info knownTypeMap = render date info []).
Proof.
  unfold render. split.
  - by intros type ->.
  - intros members -> H. unfold renderInterface.
    rewrite (map_ext_in (renderMember knownTypeMap) (renderMember []) members);
      [done |].
    intros member Hm. unfold renderMember.
    rewrite memberType_unknown; [done |].
    intros t Ht. apply (H member); [by apply list_elem_of_In | done].
Qed.

Lemma document_without_known_types_witness :
  render "D" aliasInfo [("Bar", "common/bar")] = render "D" aliasInfo []
  ∧ render "D" membersInfo [("Bar", "common/bar")] = render "D" membersInfo [].
Proof.
  split.
  - exact (proj1 (document_without_known_types "D" aliasInfo
                    [("Bar", "common/bar")]) "Bar | string" eq_refl).
  - apply (proj2 (document_without_known_types "D" membersInfo
                    [("Bar", "common/bar")]) _ eq_refl).
    intros member t Hm Ht kv Hkv.
    apply list_elem_of_singleton in Hkv. subst kv.
    apply list_elem_of_In in Hm. apply list_elem_of_In in Ht.
    destruct Hm as [<-|[<-|[]]]; simpl in Ht;
      repeat (destruct Ht as [<-|Ht]; [reflexivity |]); destruct Ht.
Defined.

(** X20. The titles of the type map are looked for one after the other in
    the text as it stands, with the links that have been put in for earlier
    titles: with two titles registered, the second one is linked at its
    first occurrence in the text that has the link of the first one, be that
    occurrence inside that link. *)
Theorem renderType_searches_links (type key1 val1 key2 val2 pre1 post1 pre2 post2 : string) :
  noDollar key1 = true → noDollar val1 = true →
  noDollar key2 = true → noDollar val2 = true →
  encodedText type = pre1 +:+ key1 +:+ post1 →
  (∀ pre' post', encodedText type = pre' +:+ key1 +:+ post' →
     (String.length pre1 <= String.length pre')%nat) →
  pre1 +:+ link key1 val1 +:+ post1 = pre2 +:+ key2 +:+ post2 →
  (∀ pre' post', pre1 +:+ link key1 val1 +:+ post1 = pre' +:+ key2 +:+ post' →
     (String.length pre2 <= String.length pre')%nat) →
  renderType type [(key1, val1); (key2, val2)]
  = pre2 +:+ link key2 val2 +:+ post2.
Proof.
  intros Hk1 Hv1 Hk2 Hv2 Hs1 Hmin1 Hs2 Hmin2.
  rewrite renderType_encodedText. cbn [foldl fst snd].
  unfold JS.replace at 2. rewrite (cut_of_first _ _ _ _ Hs1 Hmin1).
  rewrite getSubstitution_plain
    by (apply noDollar_cat; by repeat constructor).
  unfold JS.replace. rewrite (cut_of_first _ _ _ _ Hs2 Hmin2).
  rewrite getSubstitution_plain; [done |].
  apply noDollar_cat. by repeat constructor.
Qed.

Lemma renderType_searches_links_witness :
  renderType "OrderLine"
    [("OrderLine", "entities/order-line"); ("Order", "entities/order")]
  = "<a href='/docs/api//entities/order-line/'><a href='/docs/api//entities/order/'>Order</a>Line</a>".
Proof.
  apply (renderType_searches_links "OrderLine"
           "OrderLine" "entities/order-line" "Order" "entities/order"
           "" "" "<a href='/docs/api//entities/order-line/'>" "Line</a>");
    try reflexivity.
  - intros pre' post' _. simpl. lia.
  - apply (cut_first "Order"
             ("" +:+ link "OrderLine" "entities/order-line" +:+ "")
             "<a href='/docs/api//entities/order-line/'>" "Line</a>").
    reflexivity.
Defined.

(** ** The script *)

Section Script.

Variable path_join : string → string → string.
Variable inside : string → string → bool.
Variable outputPath : string.
Variable now : nat → string.

(** X21. When the script has run, every generated file of the output tree
    is of this run: a file inside the output tree whose content has the
    generated marker lies at the path of the document or of the index
    document of a record of the run. *)
Theorem main_leaves_no_stale_document (sourceFiles : list SourceFile) (w : World) :
  ∃ w',
    main path_join inside outputPath now sourceFiles w = Some w'
    ∧ ∀ p content,
        inside outputPath p = true →
        files w' !! p = Some content → isGenerated content = true →
        ∃ i, i ∈ declarationInfos sourceFiles
             ∧ (p = docFile path_join outputPath i
                ∨ p = indexFile path_join outputPath i).
Proof.
  unfold main.
  destruct (deleteGeneratedDocs_result inside outputPath w)
    as (w0 & n & -> & Hf & _).
  eexists. split; [done |]. intros p c Hin Hp Hg.
  destruct (decide (p ∈ writtenPaths path_join outputPath
                          (declarationInfos sourceFiles))) as [Hw|Hw].
  - unfold writtenPaths in Hw.
    apply elem_of_app in Hw as [Hw|Hw];
      apply list_elem_of_fmap in Hw as (i & -> & Hi); exists i; auto.
  - exfalso. rewrite generateDocs_files, foldl_emit_frame in Hp.
    + simpl in Hp. rewrite Hf in Hp.
      destruct (files w !! p) as [c0|]; [|done]. rewrite Hin in Hp. simpl in Hp.
      destruct (isGenerated c0) eqn:G; [done |]. congruence.
    + intros i Hi. split; intros ->; apply Hw; unfold writtenPaths;
        apply elem_of_app; [left | right]; apply list_elem_of_fmap; eauto.
Qed.

End Script.

Lemma main_leaves_no_stale_document_witness :
  ∃ w',
    main slash_join below "/out" iso [untaggedFile] (start staleTree ∅) = Some w'
    ∧ ∀ p content,
        below "/out" p = true → files w' !! p = Some content →
        isGenerated content = false.
Proof.
  destruct (main_leaves_no_stale_document slash_join below "/out" iso
              [untaggedFile] (start staleTree ∅)) as (w' & Hm & H).
  exists w'. split; [exact Hm |]. intros p c Hin Hp.
  destruct (isGenerated c) eqn:G; [|done].
  destruct (H p c Hin Hp G) as (i & Hi & _).
  change (declarationInfos [untaggedFile]) with (@nil DeclarationInfo) in Hi.
  apply elem_of_nil in Hi. destruct Hi.
Defined.

(** * The generator with its exceptions *)

(** ** Tags at which [parseTags] throws *)

Lemma parseTags_cons {S} (tag : JSDocTag) (rest : list JSDocTag)
  (m : TagMatcher S) (s : S) :
  parseTags (tag :: rest) m s =
  parseTags rest m (match matcher_get m (tagName tag) with
                    | Some f => f tag s
                    | None => s
                    end).
Proof. done. Qed.

(** Tags without a handler count for nothing when nothing is thrown *)
Lemma parseTags_filter_handled {S} (tags : list JSDocTag) (m : TagMatcher S)
  (s : S) :
  parseTags tags m s = parseTags (filter (λ tag, handled m tag = true) tags) m s.
Proof.
  induction tags as [|tag tags IH] using rev_ind; [done |].
  rewrite filter_app, parseTags_snoc. unfold handled at 2.
  destruct (matcher_get m (tagName tag)) as [f|] eqn:E.
  - rewrite filter_cons_True, filter_nil
      by (unfold handled; rewrite E; by apply bool_decide_eq_true_2).
    by rewrite parseTags_snoc, E, IH.
  - rewrite filter_cons_False, filter_nil, app_nil_r; [done |].
    unfold handled. rewrite E. rewrite bool_decide_eq_false_2; [done |].
    by intros [? ?].
Qed.

(** [parseTags] throws exactly when a tag without a handler bears a throwing
    name, and gives the result of the calls that return otherwise. *)
Lemma Exn_parseTags_throws {S} (tags : list JSDocTag) (m : TagMatcher S) (s : S) :
  Exn.parseTags tags m s =
  if existsb (throws m) tags then None else Some (parseTags tags m s).
Proof.
  revert s. induction tags as [|tag tags IH]; intros s; [done |].
  rewrite parseTags_cons. cbn [Exn.parseTags existsb].
  unfold throws at 1, handled.
  destruct (matcher_get m (tagName tag)) as [f|] eqn:E.
  - rewrite bool_decide_eq_true_2 by (by eexists). apply IH.
  - rewrite bool_decide_eq_false_2 by (by intros [? ?]).
    destruct (Exn.throwing (tagName tag)); [done |]. apply IH.
Qed.

Lemma Exn_parseTags_Some {S} (tags : list JSDocTag) (m : TagMatcher S) (s x : S) :
  Exn.parseTags tags m s = Some x → x = parseTags tags m s.
Proof.
  rewrite Exn_parseTags_throws. destruct (existsb _ _); [done |].
  by intros [= <-].
Qed.

Lemma quietTags_throws {S} (m : TagMatcher S) (tags : list JSDocTag) :
  quietTags tags = true → existsb (throws m) tags = false.
Proof.
  induction tags as [|tag tags IH]; [done |]. cbn [quietTags forallb existsb].
  intros [H1 H2]%andb_true_iff. apply negb_true_iff in H1.
  unfold throws at 1. rewrite H1, andb_false_r. by apply IH.
Qed.

Lemma Exn_parseTags_quiet {S} (tags : list JSDocTag) (m : TagMatcher S) (s : S) :
  quietTags tags = true → Exn.parseTags tags m s = Some (parseTags tags m s).
Proof. intros H. by rewrite Exn_parseTags_throws, quietTags_throws. Qed.

Lemma Exn_parseTags_app {S} (l1 l2 : list JSDocTag) (m : TagMatcher S) (s : S) :
  Exn.parseTags (l1 ++ l2) m s = Exn.parseTags l1 m s ≫= Exn.parseTags l2 m.
Proof.
  revert s. induction l1 as [|tag l1 IH]; intros s; [done |].
  cbn [app Exn.parseTags]. destruct (matcher_get m (tagName tag)); [apply IH |].
  destruct (Exn.throwing (tagName tag)); [done | apply IH].
Qed.

Lemma matcher_get_elem {S} (m : TagMatcher S) (name : string)
  (f : JSDocTag → S → S) :
  matcher_get m name = Some f → (name, f) ∈ m.
Proof.
  induction m as [|[n g] m IH]; [done |]. simpl. case_bool_decide as E.
  - intros [= <-]. subst. by left.
  - intros H. right. by apply IH.
Qed.

(** Under a matcher whose own names do not throw, a tag throws by its name *)
Lemma throws_by_name {S} (m : TagMatcher S) (tags : list JSDocTag) :
  (∀ n f, (n, f) ∈ m → Exn.throwing n = false) →
  existsb (throws m) tags = negb (quietTags tags).
Proof.
  intros Hm. induction tags as [|tag tags IH]; [done |].
  cbn [quietTags forallb existsb]. fold (quietTags tags).
  rewrite negb_andb, negb_involutive, <- IH. f_equal.
  unfold throws, handled.
  destruct (matcher_get m (tagName tag)) as [f|] eqn:E.
  - rewrite bool_decide_eq_true_2 by (by eexists).
    by rewrite (Hm _ _ (matcher_get_elem _ _ _ E)).
  - by rewrite bool_decide_eq_false_2 by (by intros [? ?]).
Qed.

(** X18. [parseTags] goes through the tags in source order, the tags of a
    list put behind another being handled from the result of the first list.
    It throws exactly when a tag that has no handler of the matcher's own
    bears one of the names [__proto__], [__defineGetter__] and
    [__defineSetter__], which the matcher inherits; otherwise the tags
    without a handler count for nothing: the result is that of the handled
    tags alone, and the start value when no tag is handled. *)
Theorem parseTags_handled_in_order {S} (tagMatcher : TagMatcher S)
  (tags1 tags2 : list JSDocTag) (s : S) :
  Exn.parseTags (tags1 ++ tags2) tagMatcher s
  = Exn.parseTags tags1 tagMatcher s ≫= Exn.parseTags tags2 tagMatcher
  ∧ Exn.parseTags tags1 tagMatcher s
    = (if existsb (throws tagMatcher) tags1 then None
       else Some (parseTags (filter (λ tag, handled tagMatcher tag = true) tags1)
                    tagMatcher s))
  ∧ (existsb (throws tagMatcher) tags1 = false →
     filter (λ tag, handled tagMatcher tag = true) tags1 = [] →
     Exn.parseTags tags1 tagMatcher s = Some s).
Proof.
  split; [apply Exn_parseTags_app |].
  assert (Exn.parseTags tags1 tagMatcher s
          = (if existsb (throws tagMatcher) tags1 then None
             else Some (parseTags
                          (filter (λ tag, handled tagMatcher tag = true) tags1)
                          tagMatcher s))) as H.
  { rewrite Exn_parseTags_throws. destruct (existsb _ _); [done |].
    by rewrite <- parseTags_filter_handled. }
  split; [done |]. intros Hq Hf. by rewrite H, Hq, Hf.
Qed.

Lemma description_names (n : string) (f : JSDocTag → string → string) :
  (n, f) ∈ [("description",
             λ tag description, JS.append_any description (comment tag))] →
  Exn.throwing n = false.
Proof. intros H. apply list_elem_of_singleton in H. by injection H as -> _. Qed.

Lemma member_names (n : string) (f : JSDocTag → MemberVars → MemberVars) :
  (n, f) ∈ memberMatcher → Exn.throwing n = false.
Proof.
  intros H. apply list_elem_of_In in H. simpl in H.
  destruct H as [H|[H|[H|[]]]]; by injection H as <- _.
Qed.

(** X1. The description of a declaration is the concatenation, in source
    order, of the texts of its description tags (a tag without text counting
    as the text undefined); tags of any other name add nothing, unless one of
    them bears a name at which [parseTags] throws, and then there is no
    description, the exception ending the pass.  A declaration without a
    description tag and without such a name has the empty description. *)
Theorem declaration_description_concatenates (d : ValidDeclaration) :
  Exn.getDeclarationDescription d
  = (if quietTags (jsDoc d) then Some (cat (map declarationPiece (jsDoc d)))
     else None)
  ∧ (quietTags (jsDoc d) = true → tagsNamed "description" (jsDoc d) = [] →
       Exn.getDeclarationDescription d = Some "")
  ∧ ∀ l1 l2, jsDoc d = l1 ++ l2 →
      Exn.getDeclarationDescription d =
      (a ← Exn.getDeclarationDescription (withTags d l1);
       b ← Exn.getDeclarationDescription (withTags d l2);
       Some (a +:+ b)).
Proof.
  assert (∀ tags,
    Exn.parseTags tags
      [("description", λ tag description, JS.append_any description (comment tag))]
      ""
    = (if quietTags tags then Some (cat (map declarationPiece tags)) else None))
    as P.
  { intros tags. rewrite Exn_parseTags_throws.
    rewrite (throws_by_name _ tags description_names).
    destruct (quietTags tags); [|done]. simpl.
    by rewrite declaration_description_pieces. }
  unfold Exn.getDeclarationDescription. split; [apply P |]. split.
  - intros Hq Hn. rewrite P, Hq. f_equal. apply cat_map_nil. intros t Ht.
    unfold declarationPiece, tagged.
    rewrite bool_decide_eq_false_2; [done |].
    by apply (proj1 (tagsNamed_nil_iff "description" (jsDoc d)) Hn).
  - intros l1 l2 ->. simpl. rewrite !P. unfold quietTags.
    rewrite forallb_app. fold (quietTags l1) (quietTags l2).
    destruct (quietTags l1), (quietTags l2); simpl; try done.
    by rewrite map_app, cat_app.
Qed.

(** X2. The description of a member is the concatenation, in source order,
    of what its description and example tags give: the text of a description
    tag (nothing when it has none) and the formatted code of an example tag;
    the default tag and all other tags add nothing to it, unless one of them
    bears a name at which [parseTags] throws, and then no member is given,
    the exception ending the pass. *)
Theorem member_description_concatenates (s : Signature) (k : string → MemberKind) :
  m_description <$> Exn.parseSignature s k
  = (if quietTags (sig_jsDoc s) then Some (cat (map memberPiece (sig_jsDoc s)))
     else None)
  ∧ (quietTags (sig_jsDoc s) = true →
     (∀ t, t ∈ sig_jsDoc s → tagName t ≠ "description" ∧ tagName t ≠ "example") →
     m_description <$> Exn.parseSignature s k = Some "").
Proof.
  assert (m_description <$> Exn.parseSignature s k
          = (if quietTags (sig_jsDoc s)
             then Some (cat (map memberPiece (sig_jsDoc s))) else None)) as P.
  { unfold Exn.parseSignature. rewrite Exn_parseTags_throws.
    rewrite (throws_by_name _ _ member_names).
    destruct (quietTags (sig_jsDoc s)); [|done]. simpl.
    by rewrite member_description_pieces. }
  split; [done |]. intros Hq H. rewrite P, Hq. f_equal.
  apply cat_map_nil. intros t Ht.
  destruct (H t Ht) as [H1 H2]. unfold memberPiece, tagged.
  by rewrite !bool_decide_eq_false_2.
Qed.

Lemma declaration_description_concatenates_witness :
  Exn.getDeclarationDescription
    (interfaceDecl "Foo" [tag "docsCategory" "common"] [])
  = Some ""
  ∧ Exn.getDeclarationDescription
      (interfaceDecl "Foo" [tag "docsCategory" "common"; tag "description" "A foo. ";
                            tag "docsWeight" "1"; tag "description" "More."] [])
    = Some "A foo. More."
  ∧ Exn.getDeclarationDescription
      (interfaceDecl "Foo" [tag "description" "A foo. "; tag "__proto__" "x"] [])
    = None.
Proof.
  split; [|split].
  - exact (proj1 (proj2 (declaration_description_concatenates
             (interfaceDecl "Foo" [tag "docsCategory" "common"] [])))
             eq_refl eq_refl).
  - exact (proj1 (declaration_description_concatenates
             (interfaceDecl "Foo" [tag "docsCategory" "common";
                                   tag "description" "A foo. ";
                                   tag "docsWeight" "1"; tag "description" "More."]
                []))).
  - exact (proj1 (declaration_description_concatenates
             (interfaceDecl "Foo" [tag "description" "A foo. ";
                                   tag "__proto__" "x"] []))).
Defined.

Lemma member_description_concatenates_witness :
  m_description <$>
    Exn.parseSignature (propertySig "take" "number" [tag "default" "5"]) property
  = Some ""
  ∧ m_description <$>
      Exn.parseSignature
        (propertySig "take" "number"
           [tag "description" "How many."; tag "default" "5";
            tag "example" "take: 10"]) property
    = Some ("How many." +:+ JS.LF +:+ JS.LF +:+ "take: 10")
  ∧ m_description <$>
      Exn.parseSignature
        (propertySig "take" "number" [tag "__defineGetter__" "x"]) property
    = None.
Proof.
  split; [|split].
  - apply (proj2 (member_description_concatenates
             (propertySig "take" "number" [tag "default" "5"]) property));
      [reflexivity |].
    intros t Ht. apply list_elem_of_singleton in Ht. subst t. by split.
  - exact (proj1 (member_description_concatenates
             (propertySig "take" "number"
                [tag "description" "How many."; tag "default" "5";
                 tag "example" "take: 10"]) property)).
  - exact (proj1 (member_description_concatenates
             (propertySig "take" "number" [tag "__defineGetter__" "x"])
             property)).
Defined.

(** ** Records whose tags do not throw *)

Lemma Exn_parseSignature_Some (s : Signature) (k : string → MemberKind)
  (info : MemberInfo) :
  Exn.parseSignature s k = Some info → info = parseSignature s k.
Proof.
  unfold Exn.parseSignature.
  destruct (Exn.parseTags _ _ _) as [v|] eqn:E; [|done].
  apply Exn_parseTags_Some in E. subst v. by intros [= <-].
Qed.

Lemma Exn_parseMember_Some (member : TypeElement) (infos : list MemberInfo) :
  Exn.parseMember member = Some infos → infos = parseMember member.
Proof.
  destruct member as [s|s ps|]; simpl.
  - destruct (Exn.parseSignature s property) as [i|] eqn:E; [|done].
    apply Exn_parseSignature_Some in E. subst i. by intros [= <-].
  - destruct (Exn.parseSignature s _) as [i|] eqn:E; [|done].
    apply Exn_parseSignature_Some in E. subst i. by intros [= <-].
  - by intros [= <-].
Qed.

Lemma Exn_parseMembers_Some (members : list TypeElement) (infos : list MemberInfo) :
  Exn.parseMembers members = Some infos → infos = parseMembers members.
Proof.
  revert infos. induction members as [|member members IH]; intros infos.
  - by intros [= <-].
  - cbn [Exn.parseMembers].
    destruct (Exn.parseMember member) as [a|] eqn:E1; [|done].
    destruct (Exn.parseMembers members) as [b|] eqn:E2; [|done].
    apply Exn_parseMember_Some in E1. rewrite (IH b eq_refl). subst a.
    by intros [= <-].
Qed.

(** A record that is parsed without an exception is the record of
    [parseDeclaration] above *)
Lemma Exn_parseDeclaration_Some (st : Statement) (sourceFile : string)
  (sourceLine : N) (r : option DeclarationInfo) :
  Exn.parseDeclaration st sourceFile sourceLine = Some r →
  r = parseDeclaration st sourceFile sourceLine.
Proof.
  destruct st as [d|]; [|by intros [= <-]].
  unfold Exn.parseDeclaration, parseDeclaration.
  unfold Exn.getDocsCategory, getDocsCategory.
  destruct (Exn.parseTags (jsDoc d) _ None) as [c|] eqn:E1; [|done].
  apply Exn_parseTags_Some in E1. rewrite <- E1. simpl.
  destruct c as [c|]; [|by intros [= <-]].
  unfold Exn.getDeclarationWeight, getDeclarationWeight.
  destruct (Exn.parseTags (jsDoc d) _ (JS.Num 10)) as [wt|] eqn:E2; [|done].
  apply Exn_parseTags_Some in E2. rewrite <- E2. simpl.
  unfold Exn.getDeclarationDescription, getDeclarationDescription.
  destruct (Exn.parseTags (jsDoc d) _ "") as [ds|] eqn:E3; [|done].
  apply Exn_parseTags_Some in E3. rewrite <- E3. simpl.
  destruct (body d) as [ms|t]; simpl.
  - destruct (Exn.parseMembers ms) as [infos|] eqn:E4; [|done].
    apply Exn_parseMembers_Some in E4. subst infos. by intros [= <-].
  - by intros [= <-].
Qed.

Lemma Exn_parseMembers_quiet (members : list TypeElement) :
  forallb quietMember members = true →
  Exn.parseMembers members = Some (parseMembers members).
Proof.
  induction members as [|member members IH]; [done |].
  cbn [forallb]. intros [H1 H2]%andb_true_iff.
  cbn [Exn.parseMembers]. rewrite (IH H2).
  assert (Exn.parseMember member = Some (parseMember member)) as ->; [|done].
  destruct member as [s|s ps|]; simpl in *; [| |done];
    unfold Exn.parseSignature; by rewrite Exn_parseTags_quiet.
Qed.

Lemma Exn_parseDeclaration_quiet (st : Statement) (sourceFile : string)
  (sourceLine : N) :
  quietStatement st = true →
  Exn.parseDeclaration st sourceFile sourceLine
  = Some (parseDeclaration st sourceFile sourceLine).
Proof.
  destruct st as [d|]; [|done]. cbn [quietStatement].
  intros [H1 H2]%andb_true_iff.
  unfold Exn.parseDeclaration, parseDeclaration.
  unfold Exn.getDocsCategory, getDocsCategory,
    Exn.getDeclarationWeight, getDeclarationWeight,
    Exn.getDeclarationDescription, getDeclarationDescription.
  rewrite !Exn_parseTags_quiet by done. simpl.
  destruct (parseTags (jsDoc d) _ None) as [c|]; [|done]. simpl.
  destruct (body d) as [ms|t]; [|done].
  by rewrite Exn_parseMembers_quiet.
Qed.

Lemma Exn_mapRegister_Done (statements : list (Statement * string * N))
  (w : World) (r : list (option DeclarationInfo) * World) :
  Exn.mapRegister statements w = Exn.Done r → r = mapRegister statements w.
Proof.
  revert w r. induction statements as [|st sts IH]; intros w r.
  - by intros [= <-].
  - cbn [Exn.mapRegister mapRegister]. unfold Exn.registerInfo, registerInfo.
    destruct (Exn.parseDeclaration st.1.1 st.1.2 st.2) as [info|] eqn:E; [|done].
    apply Exn_parseDeclaration_Some in E. rewrite <- E.
    destruct info as [i|].
    + destruct (Exn.mapRegister sts _) as [[infos w2]|] eqn:E2; [|done].
      rewrite <- (IH _ _ E2). by intros [= <-].
    + destruct (Exn.mapRegister sts _) as [[infos w2]|] eqn:E2; [|done].
      rewrite <- (IH _ _ E2). by intros [= <-].
Qed.

Lemma Exn_mapRegister_quiet (statements : list (Statement * string * N))
  (w : World) :
  Forall (λ st, quietStatement st.1.1 = true) statements →
  Exn.mapRegister statements w = Exn.Done (mapRegister statements w).
Proof.
  revert w. induction statements as [|st sts IH]; intros w H; [done |].
  apply Forall_cons in H as [H1 H2].
  cbn [Exn.mapRegister mapRegister]. unfold Exn.registerInfo, registerInfo.
  rewrite Exn_parseDeclaration_quiet by done.
  destruct (parseDeclaration st.1.1 st.1.2 st.2) as [i|].
  - rewrite (IH _ H2). by destruct (mapRegister sts _).
  - rewrite (IH _ H2). by destruct (mapRegister sts _).
Qed.

Lemma quietSources_statements (sourceFiles : list SourceFile) :
  quietSources sourceFiles = true →
  Forall (λ st, quietStatement st.1.1 = true)
         (getStatementsWithSourceLocation sourceFiles).
Proof.
  intros H. apply Forall_forall.
  intros x (sf & st & Hsf & Hst & ->)%located_statement.
  unfold quietSources in H. rewrite forallb_forall in H.
  apply list_elem_of_In in Hsf. specialize (H sf Hsf).
  rewrite forallb_forall in H. apply list_elem_of_In in Hst.
  exact (H st Hst).
Qed.

(** ** File-system calls that throw *)

Section Throwing.

Variable path_join : string → string → string.
Variable dirname : string → string.
Variable now : nat → string.
Variable out : string.

Lemma Exn_writeFileSync_cases (p data : string) (w : World) :
  Exn.writeFileSync dirname p data w = Exn.Done (writeFileSync p data w)
  ∨ Exn.writeFileSync dirname p data w = Exn.Thrown w.
Proof. unfold Exn.writeFileSync. repeat case_bool_decide; auto. Qed.

Lemma Exn_writeFileSync_ok (p data : string) (w : World) :
  p ∉ dirs w → dirname p ∈ dirs w →
  Exn.writeFileSync dirname p data w = Exn.Done (writeFileSync p data w).
Proof.
  intros H1 H2. unfold Exn.writeFileSync.
  by rewrite (bool_decide_eq_false_2 _ H1), (bool_decide_eq_true_2 _ H2).
Qed.

Lemma Exn_ensureDir_cases (info : DeclarationInfo) (w : World) :
  Exn.ensureDir path_join dirname out info w
    = Exn.Done (ensureDir path_join out info w)
  ∨ Exn.ensureDir path_join dirname out info w = Exn.Thrown w.
Proof.
  unfold Exn.ensureDir, ensureDir, Exn.mkdirSync.
  destruct (existsSync _ w); [by left |]. case_bool_decide; auto.
Qed.

Lemma Exn_ensureDir_ok (info : DeclarationInfo) (w : World) :
  categoryDir path_join out info ∈ dirs w
  ∨ (existsSync (categoryDir path_join out info) w = false
     ∧ dirname (categoryDir path_join out info) ∈ dirs w) →
  Exn.ensureDir path_join dirname out info w
    = Exn.Done (ensureDir path_join out info w)
  ∧ categoryDir path_join out info ∈ dirs (ensureDir path_join out info w).
Proof.
  unfold Exn.ensureDir, ensureDir, Exn.mkdirSync.
  destruct (existsSync (categoryDir path_join out info) w) eqn:E.
  - intros [H|[H _]]; [done | done].
  - intros [H|[_ H]].
    + unfold existsSync in E. apply orb_false_iff in E as [_ E].
      by apply bool_decide_eq_false in E.
    + rewrite (bool_decide_eq_true_2 _ H). split; [done |]. simpl.
      apply elem_of_union. left. by apply elem_of_singleton.
Qed.

Lemma Exn_ensureIndex_cases (info : DeclarationInfo) (w : World) :
  Exn.ensureIndex path_join dirname now out info w
    = Exn.Done (ensureIndex path_join now out info w)
  ∨ (Exn.ensureIndex path_join dirname now out info w = Exn.Thrown (tick w)
     ∧ existsSync (indexFile path_join out info) w = false).
Proof.
  unfold Exn.ensureIndex, ensureIndex.
  destruct (existsSync _ w); [by left |].
  destruct (Exn_writeFileSync_cases (indexFile path_join out info)
              (indexFileContent (now (clock w)) info) (tick w)) as [->| ->]; auto.
Qed.

Lemma Exn_ensureIndex_ok (info : DeclarationInfo) (w : World) :
  dirname (indexFile path_join out info) ∈ dirs w →
  Exn.ensureIndex path_join dirname now out info w
    = Exn.Done (ensureIndex path_join now out info w).
Proof.
  intros H. unfold Exn.ensureIndex, ensureIndex.
  destruct (existsSync _ w) eqn:E; [done |].
  apply Exn_writeFileSync_ok; [|done]. simpl.
  unfold existsSync in E. apply orb_false_iff in E as [_ E].
  by apply bool_decide_eq_false in E.
Qed.

(** One turn of the loop: it is done as above, or it has thrown, in a world
    that has the type map of before, all that existed before, and at most
    the category directory and the index document in addition. *)
Lemma Exn_emit_cases (w : World) (info : DeclarationInfo) :
  Exn.emit path_join dirname now out w info
    = Exn.Done (emit path_join now out w info)
  ∨ ∃ w', Exn.emit path_join dirname now out w info = Exn.Thrown w'
          ∧ typeMap w' = typeMap w
          ∧ dirs w ⊆ dirs w'
          ∧ (∀ p, existsSync p w = true → files w' !! p = files w !! p)
          ∧ (∀ p, is_Some (files w !! p) → is_Some (files w' !! p)).
Proof.
  unfold Exn.emit, emit, renderStep.
  set (w1 := log (Rendered (title info) (typeMap w)) (tick w)).
  destruct (Exn_ensureDir_cases info w1) as [->| ->].
  2: { right. exists w1. by repeat split. }
  set (w2 := ensureDir path_join out info w1).
  assert (typeMap w2 = typeMap w ∧ files w2 = files w ∧ dirs w ⊆ dirs w2
          ∧ ∀ p, existsSync p w = true → existsSync p w2 = true)
    as (T2 & F2 & D2 & X2).
  { subst w2. unfold ensureDir.
    destruct (existsSync (categoryDir path_join out info) w1); [done |].
    repeat split; try done.
    - simpl. apply union_subseteq_r.
    - intros p Hp. unfold existsSync in *. simpl.
      apply orb_true_iff in Hp as [Hp|Hp]; apply orb_true_iff; [by left | right].
      apply bool_decide_eq_true in Hp. apply bool_decide_eq_true.
      apply elem_of_union. by right. }
  destruct (Exn_ensureIndex_cases info w2) as [->|[-> Hx]].
  2: { right. exists (tick w2). repeat split; try done.
       - intros p _. simpl. by rewrite F2.
       - intros p. simpl. by rewrite F2. }
  set (w3 := ensureIndex path_join now out info w2).
  destruct (Exn_writeFileSync_cases (docFile path_join out info)
              (render (now (clock w)) info (typeMap w)) w3) as [->| ->];
    [by left |].
  right. exists w3. subst w3. unfold ensureIndex.
  destruct (existsSync (indexFile path_join out info) w2) eqn:Hx.
  - repeat split; try done.
    + intros p _. by rewrite F2.
    + intros p. by rewrite F2.
  - repeat split; try done.
    + intros p Hp. simpl. rewrite F2, lookup_insert_ne; [done |].
      intros <-. apply X2 in Hp. congruence.
    + intros p Hp. simpl. rewrite F2, lookup_insert. by case_decide.
Qed.

Lemma Exn_emit_Done (w w' : World) (info : DeclarationInfo) :
  Exn.emit path_join dirname now out w info = Exn.Done w' →
  w' = emit path_join now out w info.
Proof.
  destruct (Exn_emit_cases w info) as [->|(w2 & -> & _)]; [|done].
  by intros [= <-].
Qed.

Lemma Exn_emit_typeMap (w : World) (info : DeclarationInfo) :
  typeMap (Exn.world (Exn.emit path_join dirname now out w info)) = typeMap w.
Proof.
  destruct (Exn_emit_cases w info) as [->|(w2 & -> & H & _)]; [|done].
  apply emit_typeMap.
Qed.


Lemma Exn_emit_completes (w : World) (info : DeclarationInfo) :
  writable path_join dirname out info w →
  Exn.emit path_join dirname now out w info
  = Exn.Done (emit path_join now out w info).
Proof.
  intros (Hc & Hi & Hd & Hn & Hne).
  unfold Exn.emit, emit, renderStep.
  set (w1 := log (Rendered (title info) (typeMap w)) (tick w)).
  destruct (Exn_ensureDir_ok info w1) as [-> Hin]; [done |].
  assert (dirs (ensureDir path_join out info w1)
          = dirs w ∨ dirs (ensureDir path_join out info w1)
                     = {[categoryDir path_join out info]} ∪ dirs w) as D.
  { unfold ensureDir. destruct (existsSync _ w1); auto. }
  rewrite Exn_ensureIndex_ok by (by rewrite Hi).
  assert (dirs (ensureIndex path_join now out info
                  (ensureDir path_join out info w1))
          = dirs (ensureDir path_join out info w1)) as D3.
  { unfold ensureIndex.
    by destruct (existsSync (indexFile path_join out info)
                  (ensureDir path_join out info w1)). }
  apply Exn_writeFileSync_ok.
  - rewrite D3. destruct D as [-> | ->]; [done |].
    intros [H|H]%elem_of_union; [|done]. by apply elem_of_singleton in H.
  - by rewrite D3, Hd.
Qed.

Lemma Exn_forEach_Done (infos : list DeclarationInfo) (w w' : World) :
  Exn.forEach (Exn.emit path_join dirname now out) infos w = Exn.Done w' →
  w' = foldl (emit path_join now out) w infos.
Proof.
  revert w. induction infos as [|i infos IH]; intros w; [by intros [= <-] |].
  cbn [Exn.forEach foldl].
  destruct (Exn.emit path_join dirname now out w i) as [w1|w1] eqn:E; [|done].
  apply Exn_emit_Done in E. subst w1. apply IH.
Qed.

Lemma Exn_forEach_typeMap (infos : list DeclarationInfo) (w : World) :
  typeMap (Exn.world (Exn.forEach (Exn.emit path_join dirname now out) infos w))
  = typeMap w.
Proof.
  revert w. induction infos as [|i infos IH]; intros w; [done |].
  cbn [Exn.forEach]. pose proof (Exn_emit_typeMap w i) as H.
  destruct (Exn.emit path_join dirname now out w i) as [w1|w1]; [|done].
  by rewrite IH.
Qed.


(** A pass whose records the file system lets it write runs to its end *)
Lemma Exn_forEach_creatable (infos : list DeclarationInfo) (w : World) :
  creatable path_join dirname out infos w →
  Exn.forEach (Exn.emit path_join dirname now out) infos w
  = Exn.Done (foldl (emit path_join now out) w infos).
Proof.
  intros [Hw Hx].
  rewrite Forall_forall in Hw. rewrite Forall_forall in Hx.
  assert (∀ rest done, infos = done ++ rest →
            Exn.forEach (Exn.emit path_join dirname now out) rest
              (foldl (emit path_join now out) w done)
            = Exn.Done (foldl (emit path_join now out) w infos)) as H.
  2: { exact (H infos [] eq_refl). }
  induction rest as [|i rest IH]; intros done E.
  { subst infos. by rewrite app_nil_r. }
  cbn [Exn.forEach].
  assert (i ∈ infos) as Hi.
  { subst infos. apply elem_of_app. right. by left. }
  assert (∀ j, j ∈ done → j ∈ infos) as Hdone.
  { intros j Hj. subst infos. apply elem_of_app. by left. }
  set (cur := foldl (emit path_join now out) w done).
  destruct (Hw i Hi) as (Hc & Hidx & Hdoc & Hn & Hne).
  pose proof (Hx i Hi) as Hxi. rewrite Forall_forall in Hxi.
  rewrite Exn_emit_completes.
  - specialize (IH (done ++ [i])). rewrite foldl_app in IH. apply IH.
    by rewrite <- app_assoc.
  - repeat split; try done.
    + destruct Hc as [Hc|[Hc1 Hc2]].
      { left. by apply foldl_emit_dirs_keep. }
      destruct (decide (categoryDir path_join out i ∈ dirs cur)) as [Hin|Hin];
        [by left | right].
      split; [|by apply foldl_emit_dirs_keep].
      unfold existsSync. apply orb_false_iff. split.
      * subst cur. rewrite foldl_emit_frame.
        -- unfold existsSync in Hc1. by apply orb_false_iff in Hc1 as [? _].
        -- intros j Hj. destruct (Hxi j (Hdone j Hj)) as [? ?]. by split.
      * by apply bool_decide_eq_false.
    + intros Hin. subst cur.
      apply foldl_emit_dirs in Hin as [Hin|(j & Hj & Hin)]; [done |].
      pose proof (Hx j (Hdone j Hj)) as Hxj. rewrite Forall_forall in Hxj.
      by destruct (Hxj i Hi) as [? _].
Qed.

(** ** The pass with its exceptions *)

(** A pass that is done is the pass of [generateDocs] above *)
Lemma Exn_generateDocs_Done (sourceFiles : list SourceFile) (w w' : World) :
  Exn.generateDocs path_join dirname now sourceFiles out w = Exn.Done w' →
  w' = generateDocs path_join now sourceFiles out w.
Proof.
  unfold Exn.generateDocs, generateDocs.
  destruct (Exn.mapRegister _ (tick w)) as [[results w1]|w1] eqn:E; [|done].
  apply Exn_mapRegister_Done in E. rewrite <- E.
  destruct (Exn.forEach _ (omap id results) w1) as [w2|w2] eqn:E2; [|done].
  apply Exn_forEach_Done in E2. subst w2. by intros [= <-].
Qed.

(** When no tag throws, the records are registered, and then the loop over
    them runs until a file-system call throws *)
Lemma Exn_generateDocs_quiet (sourceFiles : list SourceFile) (w : World) :
  quietSources sourceFiles = true →
  Exn.generateDocs path_join dirname now sourceFiles out w =
  match Exn.forEach (Exn.emit path_join dirname now out)
          (declarationInfos sourceFiles)
          (registered (declarationInfos sourceFiles) w) with
  | Exn.Done w2 =>
      Exn.Done match declarationInfos sourceFiles with
               | [] => w2
               | _ => tick w2
               end
  | Exn.Thrown w' => Exn.Thrown w'
  end.
Proof.
  intros Hq. unfold Exn.generateDocs, declarationInfos.
  rewrite Exn_mapRegister_quiet by (by apply quietSources_statements).
  pose proof (mapRegister_results
                (getStatementsWithSourceLocation sourceFiles) (tick w)) as R.
  pose proof (mapRegister_world
                (getStatementsWithSourceLocation sourceFiles) (tick w)) as W.
  destruct (mapRegister _ (tick w)) as [results w1]. simpl in R, W.
  subst results. rewrite omap_id_map in W. rewrite omap_id_map. by subst w1.
Qed.

Lemma Exn_generateDocs_typeMap (sourceFiles : list SourceFile) (w : World) :
  quietSources sourceFiles = true →
  typeMap (Exn.world (Exn.generateDocs path_join dirname now sourceFiles out w))
  = registerAll (declarationInfos sourceFiles) (typeMap w).
Proof.
  intros Hq. rewrite Exn_generateDocs_quiet by done.
  pose proof (Exn_forEach_typeMap (declarationInfos sourceFiles)
                (registered (declarationInfos sourceFiles) w)) as H.
  destruct (Exn.forEach _ _ _) as [w2|w2]; simpl in *; [|done].
  by destruct (declarationInfos sourceFiles).
Qed.

Lemma Exn_generateDocs_creatable (sourceFiles : list SourceFile) (w : World) :
  quietSources sourceFiles = true →
  creatable path_join dirname out (declarationInfos sourceFiles) w →
  ∃ w', Exn.generateDocs path_join dirname now sourceFiles out w = Exn.Done w'.
Proof.
  intros Hq Hc. rewrite Exn_generateDocs_quiet by done.
  rewrite Exn_forEach_creatable by exact Hc. by eexists.
Qed.



(** X9. When several declarations of a pass have the same title, or the same
    document path, the last one processed wins: in the world that the pass
    leaves, done or not, the type map gives for a title the path of the last
    record with that title, and when the pass is done the file at a document
    path is the rendering of the last record with that path, under the type
    map of the end of the pass.  (The source files have no tag at which
    [parseTags] throws; the pass is done when the file system lets it write
    its records.) *)
Theorem last_declaration_wins (sourceFiles : list SourceFile) (w : World)
  (info : DeclarationInfo) :
  quietSources sourceFiles = true →
  let run := Exn.generateDocs path_join dirname now sourceFiles out w in
  (last (filter (λ i, title i = title info) (declarationInfos sourceFiles))
     = Some info →
   JS.Map_get (title info) (typeMap (Exn.world run))
   = Some (registeredPath info))
  ∧ (∀ w', run = Exn.Done w' →
       last (filter (λ i, docFile path_join out i = docFile path_join out info)
               (declarationInfos sourceFiles)) = Some info →
       ∃ n, files w' !! docFile path_join out info
            = Some (render (now n) info (typeMap w')))
  ∧ (creatable path_join dirname out (declarationInfos sourceFiles) w →
       ∃ w', run = Exn.Done w').
Proof.
  intros Hq run. split; [|split].
  - intros H. subst run.
    by rewrite Exn_generateDocs_typeMap, registerAll_last, H.
  - intros w' Hw' H. apply Exn_generateDocs_Done in Hw'. subst w'.
    rewrite generateDocs_files, generateDocs_typeMap.
    by apply (foldl_emit_last _ _ _ _ (registered _ w)).
  - by apply Exn_generateDocs_creatable.
Qed.

End Throwing.





Lemma last_declaration_wins_witness :
  ∃ w',
    Exn.generateDocs slash_join parent iso
      [{| sf_fileName := "/repo/server/src/a.ts";
          sf_statements :=
            [(0%N, Declaration
                     (interfaceDecl "Foo" [tag "docsCategory" "first"] []));
             (5%N, Declaration
                     (interfaceDecl "Foo" [tag "docsCategory" "second"] []))]
       |}] "/out" (start ∅ outDirs) = Exn.Done w'
    ∧ JS.Map_get "Foo" (typeMap w') = Some "second/foo".
Proof.
  destruct (last_declaration_wins slash_join parent iso "/out"
              [{| sf_fileName := "/repo/server/src/a.ts";
                  sf_statements :=
                    [(0%N, Declaration
                             (interfaceDecl "Foo" [tag "docsCategory" "first"] []));
                     (5%N, Declaration
                             (interfaceDecl "Foo" [tag "docsCategory" "second"] []))]
               |}] (start ∅ outDirs)
              {| sourceFile := "/server/src/a.ts"; sourceLine := 6;
                 title := "Foo"; fullText := "Foo"; weight := JS.Num 10;
                 category := "second"; description := ""; fileName := "foo";
                 kind := interface [] |} eq_refl) as (H1 & _ & H3).
  destruct H3 as [w' Hw']; [by apply (bool_decide_unpack _) |].
  exists w'. split; [exact Hw' |].
  specialize (H1 eq_refl). by rewrite Hw' in H1.
Defined.

(** ** The script with its exceptions *)

Section ThrowingScript.

Variable path_join : string → string → string.
Variable dirname : string → string.
Variable inside : string → string → bool.
Variable outputPath : string.
Variable now : nat → string.

Lemma Exn_changes_Done (changes : list SourceFile) (w w' : World) :
  Exn.forEach (Exn.onChange path_join dirname outputPath now) changes w
    = Exn.Done w' →
  w' = foldl (onChange path_join outputPath now) w changes.
Proof.
  revert w. induction changes as [|sf changes IH]; intros w; [by intros [= <-] |].
  cbn [Exn.forEach foldl].
  destruct (Exn.onChange path_join dirname outputPath now w sf) as [w1|w1] eqn:E;
    [|done].
  apply Exn_generateDocs_Done in E. subst w1. apply IH.
Qed.

(** X22. The script with its exceptions and the script of the calls that
    return agree on the runs that are done: when the script, or the script in
    watch mode through the passes of its changes, is done, its world is the
    one that [main], or [watch], gives.  The script throws at once, with
    nothing deleted, registered or written, when the output directory is not
    there; and it is done when the output directory is there, no tag of the
    source files bears a name at which [parseTags] throws, and the file
    system lets the pass write its records. *)
Theorem completed_script_is_modelled (sourceFiles changes : list SourceFile)
  (w : World) :
  (outputPath ∉ dirs w →
     Exn.main path_join dirname inside outputPath now sourceFiles w
     = Exn.Thrown w)
  ∧ (∀ w', Exn.main path_join dirname inside outputPath now sourceFiles w
           = Exn.Done w' →
           main path_join inside outputPath now sourceFiles w = Some w')
  ∧ (∀ w', Exn.watch path_join dirname inside outputPath now sourceFiles
             changes w = Exn.Done w' →
           watch path_join inside outputPath now sourceFiles changes w = Some w')
  ∧ (outputPath ∈ dirs w → quietSources sourceFiles = true →
     creatable path_join dirname outputPath (declarationInfos sourceFiles) w →
     ∃ w', Exn.main path_join dirname inside outputPath now sourceFiles w
           = Exn.Done w').
Proof.
  assert (∀ w', Exn.main path_join dirname inside outputPath now sourceFiles w
                = Exn.Done w' →
                main path_join inside outputPath now sourceFiles w = Some w') as M.
  { intros w'. unfold Exn.main, main, Exn.deleteGeneratedDocs.
    case_bool_decide; [|done].
    destruct (deleteGeneratedDocs inside outputPath w) as [[w1 n]|]; [|done].
    intros E. apply Exn_generateDocs_Done in E. by subst w'. }
  split; [|split; [|split]].
  - intros H. unfold Exn.main, Exn.deleteGeneratedDocs.
    by rewrite (bool_decide_eq_false_2 _ H).
  - exact M.
  - intros w'. unfold Exn.watch, watch.
    destruct (Exn.main path_join dirname inside outputPath now sourceFiles w)
      as [w1|w1] eqn:E; [|done].
    rewrite (M w1 eq_refl). intros E2. apply Exn_changes_Done in E2.
    by subst w'.
  - intros Hout Hq [Hw Hx]. unfold Exn.main, Exn.deleteGeneratedDocs.
    rewrite (bool_decide_eq_true_2 _ Hout).
    destruct (deleteGeneratedDocs_result inside outputPath w)
      as (w1 & n & -> & Hf & Hd & _).
    apply Exn_generateDocs_creatable; [done |]. split; [|done].
    rewrite Forall_forall in Hw. apply Forall_forall. intros i Hi.
    destruct (Hw i Hi) as (Hc & Hrest). split.
    + rewrite Hd. destruct Hc as [Hc|[Hc1 Hc2]]; [by left | right].
      split; [|done]. unfold existsSync in *. rewrite Hd.
      apply orb_false_iff in Hc1 as [Hc1 Hc3]. apply orb_false_iff.
      split; [|done]. apply bool_decide_eq_false in Hc1.
      apply bool_decide_eq_false. rewrite Hf.
      destruct (files w !! categoryDir path_join outputPath i); [|by intros [? ?]].
      destruct Hc1. by eexists.
    + by rewrite Hd.
Qed.

End ThrowingScript.

